(** * CanvasMap: the pannable, zoomable table plan

    A shallow embedding of the [CanvasMap] component
    (src/components/ProjectManagement.tsx, lines 854-1161) and of the
    [Table] type it draws (src/unnamed/part_000, lines 55-86).

    Modelling conventions.
    - A JavaScript [number] is an exact rational ([Q]).  Rounding, NaN and
      the infinities of binary64 are outside the model; where a statement
      is about equality of numbers it uses [==] on [Q].
      [pinch_delta_binary64] checks the one product the pinch scenario rests
      on in binary64 itself.
    - The five [useState] cells of the component form the record [State];
      an event handler is a function from the state its closure sees (and
      the event) to the state after its [set...] calls.  Handlers run one
      after the other, every one on the state left by the previous one.
    - [onTableClick] is a callback of the caller: a handler returns the list
      of ids it was called with.
    - [Math.hypot] is a host function.  The two handlers that call it are
      parametric in it; [hypot_floor] is an executable instance used to run
      them on concrete touches.
    - The 2-D context is modelled by its drawing state, its save stack, its
      current path and a display list of the paint operations performed
      since the bitmap was last cleared. *)

From Stdlib Require Import Floats.
From Stdlib Require Import QArith Qminmax Qround Qabs Lqa.
From Stdlib Require Import ZArith List String Bool Lia.
From Stdlib Require Import DecimalString DecimalNat.
Import ListNotations.
Open Scope Q_scope.

(** ** Numbers *)

Definition number := Q.

(** [Math.min] and [Math.max] on numbers. *)
Definition Math_min (a b : number) : number := Qmin a b.
Definition Math_max (a b : number) : number := Qmax a b.

(** Truthiness of a number: every number but zero. *)
Definition truthy (d : number) : bool := negb (Qeq_bool d 0).

(** [a % b]: the remainder has the sign of the dividend
    ([a - b * trunc (a / b)]). *)
Definition js_trunc (q : number) : Z := Z.quot (Qnum q) (Zpos (Qden q)).
Definition js_rem (a b : number) : number := a - b * inject_Z (js_trunc (a / b)).

Definition Qlt_bool (a b : number) : bool := negb (Qle_bool b a).

(** An executable stand-in for [Math.hypot]: the square root of
    [a^2 + b^2] rounded down to a multiple of [1 / (den * 2^20)]; exact
    whenever the sum of squares is the square of a rational. *)
Definition sqrt_floor (q : number) : number :=
  let n := Qnum q in
  let d := Zpos (Qden q) in
  let p := (2 ^ 20)%Z in
  Qred (Qmake (Z.sqrt (n * d * p * p)) (Qden q * Z.to_pos p)).
Definition hypot_floor (a b : number) : number := sqrt_floor (a * a + b * b).

(** ** The table type (src/unnamed/part_000) *)

Module Types.

Inductive TableStatus := Pending | Completed | Issue.
Inductive TableType := Small | Medium | Large.

(** The string value of a [TableType] member. *)
Definition type_label (t : TableType) : string :=
  match t with
  | Small => "S"
  | Medium => "M"
  | Large => "L"
  end%string.

Record Table := {
  id : string;
  projectId : string;
  index : number;
  type : TableType;
  status : TableStatus;
  x : number;
  y : number;
  completedBy : option string;
  completedAt : option number
}.

Definition status_eqb (a b : TableStatus) : bool :=
  match a, b with
  | Pending, Pending | Completed, Completed | Issue, Issue => true
  | _, _ => false
  end.

End Types.

(** ** Component state and events *)

Record XY := { x : number; y : number }.

Record State := {
  scale : number;
  offset : XY;
  isDragging : bool;
  dragStart : XY;
  lastTouchDistance : option number
}.

(** The values given to [useState] at mount. *)
Definition initialState : State :=
  {| scale := 1;
     offset := {| x := 50; y := 50 |};
     isDragging := false;
     dragStart := {| x := 0; y := 0 |};
     lastTouchDistance := None |}.

Definition setScale (v : number) (st : State) : State :=
  {| scale := v; offset := offset st; isDragging := isDragging st;
     dragStart := dragStart st; lastTouchDistance := lastTouchDistance st |}.
Definition setOffset (v : XY) (st : State) : State :=
  {| scale := scale st; offset := v; isDragging := isDragging st;
     dragStart := dragStart st; lastTouchDistance := lastTouchDistance st |}.
Definition setIsDragging (v : bool) (st : State) : State :=
  {| scale := scale st; offset := offset st; isDragging := v;
     dragStart := dragStart st; lastTouchDistance := lastTouchDistance st |}.
Definition setDragStart (v : XY) (st : State) : State :=
  {| scale := scale st; offset := offset st; isDragging := isDragging st;
     dragStart := v; lastTouchDistance := lastTouchDistance st |}.
Definition setLastTouchDistance (v : option number) (st : State) : State :=
  {| scale := scale st; offset := offset st; isDragging := isDragging st;
     dragStart := dragStart st; lastTouchDistance := v |}.

(** [React.MouseEvent] and [Touch] are read through [clientX] and [clientY]
    only. *)
Record Pointer := { clientX : number; clientY : number }.
Definition MouseEvent := Pointer.
Definition Touch := Pointer.
Record WheelEvent := { deltaY : number }.
Record TouchEvent := { touches : list Touch }.

(** Constants for drawing. *)
Definition TABLE_WIDTH : number := 45.
Definition TABLE_HEIGHT : number := 25.
Definition GAP : number := 15.

(** ** Mouse events *)

Definition handleMouseDown (st : State) (e : MouseEvent) : State :=
  setDragStart {| x := clientX e - x (offset st); y := clientY e - y (offset st) |}
    (setIsDragging true st).

Definition handleMouseMove (st : State) (e : MouseEvent) : State :=
  if isDragging st then
    setOffset {| x := clientX e - x (dragStart st);
                 y := clientY e - y (dragStart st) |} st
  else st.

Definition handleMouseUp (st : State) : State := setIsDragging false st.

Definition handleWheel (st : State) (e : WheelEvent) : State :=
  let zoomSensitivity := 0.001 in
  let delta := - deltaY e * zoomSensitivity in
  let newScale := Math_min (Math_max (scale st + delta) 0.2) 5 in
  setScale newScale st.

(** ** Touch events (pinch to zoom) *)

Section Touches.

Variable hypot : number -> number -> number.

Definition handleTouchStart (st : State) (e : TouchEvent) : State :=
  match touches e with
  | [t0] =>
      setDragStart {| x := clientX t0 - x (offset st);
                      y := clientY t0 - y (offset st) |}
        (setIsDragging true st)
  | [t0; t1] =>
      let dist := hypot (clientX t0 - clientX t1) (clientY t0 - clientY t1) in
      setLastTouchDistance (Some dist) (setIsDragging false st)
  | _ => st
  end.

Definition handleTouchMove (st : State) (e : TouchEvent) : State :=
  match touches e with
  | [t0] =>
      if isDragging st then
        setOffset {| x := clientX t0 - x (dragStart st);
                     y := clientY t0 - y (dragStart st) |} st
      else st
  | [t0; t1] =>
      match lastTouchDistance st with
      | Some last =>
          if truthy last then
            let dist :=
              hypot (clientX t0 - clientX t1) (clientY t0 - clientY t1) in
            let delta := dist - last in
            let zoomFactor := delta * 0.005 in
            let newScale := Math_min (Math_max (scale st + zoomFactor) 0.2) 5 in
            setLastTouchDistance (Some dist) (setScale newScale st)
          else st
      | None => st
      end
  | _ => st
  end.

End Touches.

Definition handleTouchEnd (st : State) : State :=
  setLastTouchDistance None (setIsDragging false st).

(** ** Controls *)

Definition zoomIn (st : State) : State :=
  setScale (Math_min (scale st + 0.2) 5) st.
Definition zoomOut (st : State) : State :=
  setScale (Math_max (scale st - 0.2) 0.2) st.
Definition resetView (st : State) : State :=
  setOffset {| x := 50; y := 50 |} (setScale 1 st).

(** ** The drawing surface *)

Module Canvas2D.

(** The current transformation matrix.  The component only translates and
    scales, so the matrix is a diagonal and a translation:
    a logical point [(px, py)] is painted at
    [(m_a * px + m_e, m_d * py + m_f)]. *)
Record Transform := { m_a : number; m_d : number; m_e : number; m_f : number }.

Definition identity : Transform := {| m_a := 1; m_d := 1; m_e := 0; m_f := 0 |}.
Definition translate_by (tx ty : number) (T : Transform) : Transform :=
  {| m_a := m_a T; m_d := m_d T;
     m_e := m_e T + m_a T * tx; m_f := m_f T + m_d T * ty |}.
Definition scale_by (sx sy : number) (T : Transform) : Transform :=
  {| m_a := m_a T * sx; m_d := m_d T * sy; m_e := m_e T; m_f := m_f T |}.
Definition apply_x (T : Transform) (px : number) : number := m_a T * px + m_e T.
Definition apply_y (T : Transform) (py : number) : number := m_d T * py + m_f T.

(** The part of the context that [save] pushes and [restore] pops. *)
Record DrawState := {
  fillStyle : string;
  strokeStyle : string;
  lineWidth : number;
  font : string;
  textAlign : string;
  textBaseline : string;
  transform : Transform
}.

(** Path segments; angles are in units of pi, so [Math.PI * 2] is [2]. *)
Inductive Seg :=
| MoveTo (px py : number)
| LineTo (px py : number)
| Arc (px py radius startAngle endAngle : number)
| Rect (px py w h : number)
| RoundRect (px py w h radii : number).

(** A path remembers the matrix under which each segment was added. *)
Definition Path := list (Transform * Seg).

(** What has been painted since the bitmap was last wiped. *)
Inductive Paint :=
| Cleared (T : Transform) (px py w h : number)
| FilledRect (style : string) (T : Transform) (px py w h : number)
| Filled (style : string) (p : Path)
| Stroked (style : string) (width : number) (T : Transform) (p : Path)
| Text (style fnt align baseline : string) (T : Transform)
       (text : string) (px py : number).

Record Context := {
  state : DrawState;
  stack : list DrawState;
  path : Path;
  bitmap : list Paint;
  hasRoundRect : bool
}.

(** A fresh context: the defaults of the 2-D context, nothing painted. *)
Definition freshState : DrawState :=
  {| fillStyle := "#000000"; strokeStyle := "#000000"; lineWidth := 1;
     font := "10px sans-serif"; textAlign := "start";
     textBaseline := "alphabetic"; transform := identity |}.
Definition freshContext (roundRectSupported : bool) : Context :=
  {| state := freshState; stack := []; path := []; bitmap := [];
     hasRoundRect := roundRectSupported |}.

Record Canvas := {
  width : number;
  height : number;
  rect_left : number;   (* getBoundingClientRect().left *)
  rect_top : number;    (* getBoundingClientRect().top *)
  context2d : option Context   (* getContext('2d') *)
}.

(** *** Context operations: state passing, with exceptions *)

Inductive outcome (A : Type) :=
| Returned (a : A) (c : Context)
| Thrown (err : string) (c : Context).
Arguments Returned {A} a c.
Arguments Thrown {A} err c.

Definition M (A : Type) := Context -> outcome A.

Definition ret {A} (a : A) : M A := fun c => Returned a c.
Definition bind {A B} (m : M A) (k : A -> M B) : M B :=
  fun c => match m c with
           | Returned a c' => k a c'
           | Thrown err c' => Thrown err c'
           end.
Definition modify (f : Context -> Context) : M unit :=
  fun c => Returned tt (f c).
Definition throw {A} (err : string) : M A := fun c => Thrown err c.

Definition with_state (f : DrawState -> DrawState) (c : Context) : Context :=
  {| state := f (state c); stack := stack c; path := path c;
     bitmap := bitmap c; hasRoundRect := hasRoundRect c |}.
Definition with_stack (s : DrawState) (k : list DrawState) (c : Context) : Context :=
  {| state := s; stack := k; path := path c;
     bitmap := bitmap c; hasRoundRect := hasRoundRect c |}.
Definition with_path (p : Path) (c : Context) : Context :=
  {| state := state c; stack := stack c; path := p;
     bitmap := bitmap c; hasRoundRect := hasRoundRect c |}.
Definition with_bitmap (b : list Paint) (c : Context) : Context :=
  {| state := state c; stack := stack c; path := path c;
     bitmap := b; hasRoundRect := hasRoundRect c |}.

Definition set_fillStyle (v : string) : M unit :=
  modify (with_state (fun s =>
    {| fillStyle := v; strokeStyle := strokeStyle s; lineWidth := lineWidth s;
       font := font s; textAlign := textAlign s;
       textBaseline := textBaseline s; transform := transform s |})).
Definition set_strokeStyle (v : string) : M unit :=
  modify (with_state (fun s =>
    {| fillStyle := fillStyle s; strokeStyle := v; lineWidth := lineWidth s;
       font := font s; textAlign := textAlign s;
       textBaseline := textBaseline s; transform := transform s |})).
Definition set_lineWidth (v : number) : M unit :=
  modify (with_state (fun s =>
    {| fillStyle := fillStyle s; strokeStyle := strokeStyle s; lineWidth := v;
       font := font s; textAlign := textAlign s;
       textBaseline := textBaseline s; transform := transform s |})).
Definition set_font (v : string) : M unit :=
  modify (with_state (fun s =>
    {| fillStyle := fillStyle s; strokeStyle := strokeStyle s;
       lineWidth := lineWidth s; font := v; textAlign := textAlign s;
       textBaseline := textBaseline s; transform := transform s |})).
Definition set_textAlign (v : string) : M unit :=
  modify (with_state (fun s =>
    {| fillStyle := fillStyle s; strokeStyle := strokeStyle s;
       lineWidth := lineWidth s; font := font s; textAlign := v;
       textBaseline := textBaseline s; transform := transform s |})).
Definition set_textBaseline (v : string) : M unit :=
  modify (with_state (fun s =>
    {| fillStyle := fillStyle s; strokeStyle := strokeStyle s;
       lineWidth := lineWidth s; font := font s; textAlign := textAlign s;
       textBaseline := v; transform := transform s |})).
Definition set_transform (f : Transform -> Transform) : M unit :=
  modify (with_state (fun s =>
    {| fillStyle := fillStyle s; strokeStyle := strokeStyle s;
       lineWidth := lineWidth s; font := font s; textAlign := textAlign s;
       textBaseline := textBaseline s; transform := f (transform s) |})).

Definition translate (tx ty : number) : M unit := set_transform (translate_by tx ty).
(** [ctx.scale]; named apart from the [scale] cell of the component. *)
Definition ctx_scale (sx sy : number) : M unit := set_transform (scale_by sx sy).

Definition save : M unit :=
  modify (fun c => with_stack (state c) (state c :: stack c) c).
Definition restore : M unit :=
  modify (fun c => match stack c with
                   | [] => c
                   | s :: k => with_stack s k c
                   end).

Definition beginPath : M unit := modify (with_path []).
Definition add_segment (sg : Seg) : M unit :=
  modify (fun c => with_path (path c ++ [(transform (state c), sg)]) c).
Definition moveTo (px py : number) : M unit := add_segment (MoveTo px py).
Definition lineTo (px py : number) : M unit := add_segment (LineTo px py).
Definition arc (px py r a0 a1 : number) : M unit := add_segment (Arc px py r a0 a1).
Definition rect (px py w h : number) : M unit := add_segment (Rect px py w h).

(** [ctx.roundRect] is missing from older contexts: reading it gives
    [undefined], calling it throws a [TypeError]. *)
Definition roundRect_defined : M bool := fun c => Returned (hasRoundRect c) c.
Definition roundRect (px py w h radii : number) : M unit :=
  fun c => if hasRoundRect c
           then add_segment (RoundRect px py w h radii) c
           else Thrown "TypeError: ctx.roundRect is not a function" c.

Definition paint (p : Context -> Paint) : M unit :=
  modify (fun c => with_bitmap (bitmap c ++ [p c]) c).
Definition fill : M unit :=
  paint (fun c => Filled (fillStyle (state c)) (path c)).
Definition stroke : M unit :=
  paint (fun c => Stroked (strokeStyle (state c)) (lineWidth (state c))
                          (transform (state c)) (path c)).
Definition fillRect (px py w h : number) : M unit :=
  paint (fun c => FilledRect (fillStyle (state c)) (transform (state c)) px py w h).
Definition fillText (text : string) (px py : number) : M unit :=
  paint (fun c => Text (fillStyle (state c)) (font (state c))
                       (textAlign (state c)) (textBaseline (state c))
                       (transform (state c)) text px py).

(** Does the rectangle, under [T], cover the whole [bw] by [bh] bitmap? *)
Definition covers (T : Transform) (px py w h bw bh : number) : bool :=
  let x0 := apply_x T px in
  let x1 := apply_x T (px + w) in
  let y0 := apply_y T py in
  let y1 := apply_y T (py + h) in
  Qle_bool (Qmin x0 x1) 0 && Qle_bool bw (Qmax x0 x1) &&
  Qle_bool (Qmin y0 y1) 0 && Qle_bool bh (Qmax y0 y1).

(** [clearRect] on the context of a [bw] by [bh] canvas: erasing the whole
    bitmap forgets what was painted, erasing a part is recorded. *)
Definition clearRect (bw bh : number) (px py w h : number) : M unit :=
  modify (fun c =>
    let T := transform (state c) in
    if covers T px py w h bw bh then with_bitmap [] c
    else with_bitmap (bitmap c ++ [Cleared T px py w h]) c).

End Canvas2D.

Declare Scope canvas_scope.
Delimit Scope canvas_scope with canvas.
Notation "c1 ;; c2" := (Canvas2D.bind c1 (fun _ => c2))
  (at level 61, right associativity) : canvas_scope.
Notation "v <- c1 ;; c2" := (Canvas2D.bind c1 (fun v => c2))
  (at level 61, c1 at next level, right associativity) : canvas_scope.

(** ** Rendering *)

Section Render.

Import Canvas2D.
Local Open Scope canvas_scope.

(** [for (let v = start; v < limit; v += step)]: the values [v] takes.
    With a positive [step] the body runs [ceil ((limit - start) / step)]
    times (never, when that is negative).  A zero [step] comes with a NaN
    [start] in the source and the body never runs; a negative [step]
    cannot arise ([step] is [50 * scale] and [scale >= 0.2]). *)
Definition loop_count (start limit step : number) : nat :=
  if Qlt_bool 0 step then Z.to_nat (Qceiling ((limit - start) / step)) else O.
Fixpoint loop_values (n : nat) (v step : number) : list number :=
  match n with
  | O => []
  | S k => v :: loop_values k (v + step) step
  end.
Definition for_loop (start limit step : number) : list number :=
  loop_values (loop_count start limit step) start step.

Fixpoint forEach {A : Type} (f : A -> M unit) (l : list A) : M unit :=
  match l with
  | [] => ret tt
  | a :: l' => f a ;; forEach f l'
  end.

Definition drawCheckmark (px py size : number) : M unit :=
  beginPath ;;
  moveTo (px + size * 0.2) (py + size * 0.5) ;;
  lineTo (px + size * 0.45) (py + size * 0.8) ;;
  lineTo (px + size * 0.8) (py + size * 0.2) ;;
  set_strokeStyle "#15803d" ;;
  set_lineWidth 2 ;;
  stroke.

Definition drawExclamation (px py size : number) : M unit :=
  set_fillStyle "#b91c1c" ;;
  beginPath ;;
  arc (px + size / 2) (py + size * 0.8) (size * 0.1) 0 2 ;;
  fill ;;
  beginPath ;;
  roundRect (px + size * 0.4) (py + size * 0.15) (size * 0.2) (size * 0.5) 2 ;;
  fill.

Definition fillColor (s : Types.TableStatus) : string :=
  match s with
  | Types.Completed => "#dcfce7"
  | Types.Issue => "#fee2e2"
  | Types.Pending => "#ffffff"
  end.
Definition strokeColor (s : Types.TableStatus) : string :=
  match s with
  | Types.Completed => "#22c55e"
  | Types.Issue => "#ef4444"
  | Types.Pending => "#94a3b8"
  end.
Definition shadowColor (s : Types.TableStatus) : string :=
  match s with
  | Types.Completed => "rgba(34, 197, 94, 0.2)"
  | Types.Issue => "rgba(239, 68, 68, 0.2)"
  | Types.Pending => "rgba(0,0,0,0.05)"
  end.

(** The callback of [tables.forEach]. *)
Definition drawTable (table : Types.Table) : M unit :=
  let drawX := Types.x table * (TABLE_WIDTH + GAP) in
  let drawY := Types.y table * (TABLE_HEIGHT + GAP) in
  (* Shadow *)
  set_fillStyle (shadowColor (Types.status table)) ;;
  fillRect (drawX + 3) (drawY + 3) TABLE_WIDTH TABLE_HEIGHT ;;
  (* Main Rect *)
  set_fillStyle (fillColor (Types.status table)) ;;
  set_strokeStyle (strokeColor (Types.status table)) ;;
  set_lineWidth (if Types.status_eqb (Types.status table) Types.Pending
                 then 1 else 2) ;;
  beginPath ;;
  (supported <- roundRect_defined ;;
   if supported : bool
   then roundRect drawX drawY TABLE_WIDTH TABLE_HEIGHT 4
   else rect drawX drawY TABLE_WIDTH TABLE_HEIGHT) ;;
  fill ;;
  stroke ;;
  (* Label *)
  set_fillStyle "#64748b" ;;
  set_font "bold 10px sans-serif" ;;
  set_textAlign "left" ;;
  set_textBaseline "top" ;;
  fillText (Types.type_label (Types.type table)) (drawX + 4) (drawY + 4) ;;
  (* Icon *)
  match Types.status table with
  | Types.Completed =>
      drawCheckmark (drawX + TABLE_WIDTH - 16) (drawY + TABLE_HEIGHT - 16) 14
  | Types.Issue =>
      drawExclamation (drawX + TABLE_WIDTH - 16) (drawY + TABLE_HEIGHT - 16) 14
  | Types.Pending =>
      set_strokeStyle "#cbd5e1" ;;
      set_lineWidth 1 ;;
      beginPath ;;
      arc (drawX + TABLE_WIDTH - 8) (drawY + TABLE_HEIGHT - 8) 3 0 2 ;;
      stroke
  end.

(** The bodies of the two grid loops. *)
Definition gridColumn (canvas : Canvas) (gx : number) : M unit :=
  moveTo gx 0 ;; lineTo gx (height canvas).
Definition gridRow (canvas : Canvas) (gy : number) : M unit :=
  moveTo 0 gy ;; lineTo (width canvas) gy.

(** The body of [draw] once the canvas and its context are at hand. *)
Definition draw_body (exportMode : bool) (tables : list Types.Table)
           (st : State) (canvas : Canvas) : M unit :=
  (* Clear canvas *)
  clearRect (width canvas) (height canvas) 0 0 (width canvas) (height canvas) ;;
  (* For export, allow solid background *)
  (if exportMode then
     set_fillStyle "#ffffff" ;;
     fillRect 0 0 (width canvas) (height canvas)
   else ret tt) ;;
  (* Draw grid *)
  let gridSize := 50 * scale st in
  set_strokeStyle (if exportMode then "#e2e8f0" else "rgba(0,0,0,0.05)") ;;
  set_lineWidth 1 ;;
  beginPath ;;
  forEach (gridColumn canvas)
          (for_loop (js_rem (x (offset st)) gridSize) (width canvas) gridSize) ;;
  forEach (gridRow canvas)
          (for_loop (js_rem (y (offset st)) gridSize) (height canvas) gridSize) ;;
  stroke ;;
  save ;;
  translate (x (offset st)) (y (offset st)) ;;
  ctx_scale (scale st) (scale st) ;;
  forEach drawTable tables ;;
  restore.

(** How a call ended. *)
Inductive Completion := Normal | Uncaught (err : string).

Definition with_context (canvas : Canvas) (c : Context) : Canvas :=
  {| width := width canvas; height := height canvas;
     rect_left := rect_left canvas; rect_top := rect_top canvas;
     context2d := Some c |}.

(** [draw(exportMode)], on [canvasRef.current]. *)
Definition draw (exportMode : bool) (tables : list Types.Table) (st : State)
           (canvasRef : option Canvas) : Completion * option Canvas :=
  match canvasRef with
  | None => (Normal, None)
  | Some canvas =>
      match context2d canvas with
      | None => (Normal, Some canvas)
      | Some ctx =>
          match draw_body exportMode tables st canvas ctx with
          | Returned _ ctx' => (Normal, Some (with_context canvas ctx'))
          | Thrown err ctx' => (Uncaught err, Some (with_context canvas ctx'))
          end
      end
  end.

End Render.

(** ** Clicks *)

(** The point of the plan under a click: [clickX] and [clickY]. *)
Definition clickX (canvas : Canvas2D.Canvas) (st : State) (e : MouseEvent) : number :=
  (clientX e - Canvas2D.rect_left canvas - x (offset st)) / scale st.
Definition clickY (canvas : Canvas2D.Canvas) (st : State) (e : MouseEvent) : number :=
  (clientY e - Canvas2D.rect_top canvas - y (offset st)) / scale st.

(** The arrow function given to [tables.find]. *)
Definition underClick (cx cy : number) (t : Types.Table) : bool :=
  let tx := Types.x t * (TABLE_WIDTH + GAP) in
  let ty := Types.y t * (TABLE_HEIGHT + GAP) in
  Qle_bool tx cx && Qle_bool cx (tx + TABLE_WIDTH) &&
  Qle_bool ty cy && Qle_bool cy (ty + TABLE_HEIGHT).

Definition clickedTable (tables : list Types.Table) (canvas : Canvas2D.Canvas)
           (st : State) (e : MouseEvent) : option Types.Table :=
  find (underClick (clickX canvas st e) (clickY canvas st e)) tables.

(** [handleClick]: the ids [onTableClick] is called with. *)
Definition handleClick (tables : list Types.Table)
           (canvasRef : option Canvas2D.Canvas) (st : State) (e : MouseEvent)
  : list string :=
  if isDragging st then []
  else
    match canvasRef with
    | None => []
    | Some canvas =>
        match clickedTable tables canvas st e with
        | Some t => [Types.id t]
        | None => []
        end
    end.

(** [handleDownload] redraws for export at once (the later redraw of the
    normal state is a timer callback, [draw false]). *)
Definition handleDownload (tables : list Types.Table) (st : State)
           (canvasRef : option Canvas2D.Canvas) : Completion * option Canvas2D.Canvas :=
  match canvasRef with
  | Some _ => draw true tables st canvasRef
  | None => (Normal, None)
  end.

(** ** The component as a transition system *)

Inductive Event :=
| MouseDown (e : MouseEvent)
| MouseMove (e : MouseEvent)
| MouseUp
| MouseLeave
| Wheel (e : WheelEvent)
| Click (e : MouseEvent)
| TouchStart (e : TouchEvent)
| TouchMove (e : TouchEvent)
| TouchEnd
| ZoomInButton
| ZoomOutButton
| DownloadButton
| ResetButton.

Section Machine.

Variable hypot : number -> number -> number.
Variable tables : list Types.Table.
Variable canvasRef : option Canvas2D.Canvas.

(** The JSX wiring of the handlers: the state after the event and the
    [onTableClick] calls made. *)
Definition step (st : State) (ev : Event) : State * list string :=
  match ev with
  | MouseDown e => (handleMouseDown st e, [])
  | MouseMove e => (handleMouseMove st e, [])
  | MouseUp => (handleMouseUp st, [])
  | MouseLeave => (handleMouseUp st, [])
  | Wheel e => (handleWheel st e, [])
  | Click e => (st, handleClick tables canvasRef st e)
  | TouchStart e => (handleTouchStart hypot st e, [])
  | TouchMove e => (handleTouchMove hypot st e, [])
  | TouchEnd => (handleTouchEnd st, [])
  | ZoomInButton => (zoomIn st, [])
  | ZoomOutButton => (zoomOut st, [])
  | DownloadButton => (st, [])
  | ResetButton => (resetView st, [])
  end.

Fixpoint run (st : State) (evs : list Event) : State * list string :=
  match evs with
  | [] => (st, [])
  | ev :: rest =>
      let (st1, calls1) := step st ev in
      let (st2, calls2) := run st1 rest in
      (st2, calls1 ++ calls2)
  end.

End Machine.

(** ** The view transform *)

(** Where [draw] paints a point of the plan: the matrix left by
    [translate (offset.x, offset.y)] and [scale (scale, scale)]. *)
Definition viewMatrix (st : State) : Canvas2D.Transform :=
  Canvas2D.scale_by (scale st) (scale st)
    (Canvas2D.translate_by (x (offset st)) (y (offset st)) Canvas2D.identity).
Definition toScreenX (st : State) (lx : number) : number :=
  Canvas2D.apply_x (viewMatrix st) lx.
Definition toScreenY (st : State) (ly : number) : number :=
  Canvas2D.apply_y (viewMatrix st) ly.

(** The point of the plan that [handleClick] reads under a canvas point
    (a client point less the corner of the canvas). *)
Definition toLogicalX (st : State) (sx : number) : number :=
  (sx - x (offset st)) / scale st.
Definition toLogicalY (st : State) (sy : number) : number :=
  (sy - y (offset st)) / scale st.

(** ** Sample data *)

Definition sampleTable (name : string) (tx ty : number)
           (s : Types.TableStatus) : Types.Table :=
  {| Types.id := name; Types.projectId := "p"; Types.index := 0;
     Types.type := Types.Small; Types.status := s;
     Types.x := tx; Types.y := ty;
     Types.completedBy := None; Types.completedAt := None |}.

Definition sampleCanvas (c : option Canvas2D.Context) : Canvas2D.Canvas :=
  {| Canvas2D.width := 800; Canvas2D.height := 600;
     Canvas2D.rect_left := 0; Canvas2D.rect_top := 0;
     Canvas2D.context2d := c |}.

(** * The callers of the plan: project management

    [ProjectManagement] (src/components/ProjectManagement.tsx, lines 1-560)
    and its other version (src/components/Chat.tsx, lines 193-602) own the
    tables the plan draws: they lay them out when a project is created and
    change their status when [onTableClick] reports a click.

    Further conventions.
    - A counter ([idx], [i], [currentX], [currentY]: set to 0 and incremented
      by one) is a [nat]; [numberOf] is its value as a number and
      [counterString] its decimal digits, as a template literal prints it.
    - An object store of the database is the list of its records;
      [update (key, changes)] rewrites the record with that primary key.
    - [generateId ()], [Date.now ()] and [window.confirm (...)] are given to
      the handler as arguments. *)

Definition numberOf (n : nat) : number := inject_Z (Z.of_nat n).
Definition counterString (n : nat) : string :=
  NilEmpty.string_of_uint (Nat.to_uint n).

(** [Math.floor], and [Math.round], which rounds halves up. *)
Definition Math_floor (q : number) : number := inject_Z (Qfloor q).
Definition Math_round (q : number) : number := inject_Z (Qfloor (q + 1 / 2)).

(** How often the body of [for (let i = 0; i < count; i++)] runs. *)
Definition iterations (count : number) : nat := loop_count 0 count 1.

(** ** Records (src/unnamed/part_000) *)

Module Project.

Record TableCounts := { small : number; medium : number; large : number }.

Record t := {
  id : string;
  name : string;
  location : string;
  tableCounts : TableCounts;
  createdDate : number;
  lastSynced : number;
  tablesGenerated : bool;
  assignedEmployees : option (list string)
}.

End Project.

Module TeamMember.

Record t := {
  id : string;
  name : string;
  email : option string;
  role : string;
  hourlyRate : number;
  isActive : bool;
  currentProjectId : option string;
  phone : option string;
  notes : option string
}.

Definition setCurrentProjectId (v : string) (m : t) : t :=
  {| id := id m; name := name m; email := email m; role := role m;
     hourlyRate := hourlyRate m; isActive := isActive m;
     currentProjectId := Some v; phone := phone m; notes := notes m |}.

End TeamMember.

(** The object stores the handlers below touch. *)
Record Database := {
  projects : list Project.t;
  projectTables : list Types.Table;
  team : list TeamMember.t
}.

(** ** Laying out the tables of a new project
    ([handleCreateProject], ProjectManagement.tsx lines 100-125) *)

Definition spacing : number := 1.

Definition newTable (projectId : string) (type : Types.TableType) (idx : nat)
  : Types.Table :=
  {| Types.id := projectId ++ "_" ++ counterString idx;
     Types.projectId := projectId;
     Types.index := numberOf idx;
     Types.type := type;
     Types.status := Types.Pending;
     Types.x := js_rem (numberOf idx) 10 * spacing;
     Types.y := Math_floor (numberOf idx / 10) * spacing;
     Types.completedBy := None;
     Types.completedAt := None |}.

(** [generateType (count, type)], on the array [tables] and the counter
    [idx] it closes over. *)
Definition generateType (projectId : string) (count : number)
           (type : Types.TableType) (acc : list Types.Table * nat)
  : list Types.Table * nat :=
  fold_left (fun (a : list Types.Table * nat) (_ : nat) =>
               (fst a ++ [newTable projectId type (snd a)], S (snd a)))
            (seq 0 (iterations count)) acc.

Definition generateTables (projectId : string) (small medium large : number)
  : list Types.Table :=
  fst (generateType projectId large Types.Large
         (generateType projectId medium Types.Medium
            (generateType projectId small Types.Small ([], 0%nat)))).

(** ** The other layout ([handleCreateProject], Chat.tsx lines 246-273) *)

Definition MAX_WIDTH_ITEMS : nat := 20.

Record Cursor := {
  placed : list Types.Table;
  currentX : nat;
  currentY : nat
}.

Definition placeTable (projectId : string) (type : Types.TableType)
           (cur : Cursor) (i : nat) : Cursor :=
  let table :=
    {| Types.id := projectId ++ "_" ++ Types.type_label type ++ "_"
                             ++ counterString i;
       Types.projectId := projectId;
       Types.index := numberOf i;
       Types.type := type;
       Types.status := Types.Pending;
       Types.x := numberOf (currentX cur);
       Types.y := numberOf (currentY cur);
       Types.completedBy := None;
       Types.completedAt := None |} in
  let nextX := S (currentX cur) in
  if (MAX_WIDTH_ITEMS <=? nextX)%nat
  then {| placed := placed cur ++ [table]; currentX := 0;
          currentY := S (currentY cur) |}
  else {| placed := placed cur ++ [table]; currentX := nextX;
          currentY := currentY cur |}.

Definition addTables (projectId : string) (count : number)
           (type : Types.TableType) (cur : Cursor) : Cursor :=
  fold_left (placeTable projectId type) (seq 0 (iterations count)) cur.

Definition layoutTables (projectId : string) (small medium large : number)
  : list Types.Table :=
  placed (addTables projectId large Types.Large
            (addTables projectId medium Types.Medium
               (addTables projectId small Types.Small
                  {| placed := []; currentX := 0; currentY := 0 |}))).

(** ** Changing the status of a table *)

(** [db.projectTables.update (key, changes)]. *)
Definition updateTable (key : string) (changes : Types.Table -> Types.Table)
           (store : list Types.Table) : list Types.Table :=
  map (fun t => if String.eqb (Types.id t) key then changes t else t) store.

Definition withStatus (s : Types.TableStatus) (by_ : option string)
           (at_ : option number) (t : Types.Table) : Types.Table :=
  {| Types.id := Types.id t; Types.projectId := Types.projectId t;
     Types.index := Types.index t; Types.type := Types.type t;
     Types.status := s; Types.x := Types.x t; Types.y := Types.y t;
     Types.completedBy := by_; Types.completedAt := at_ |}.

Definition findTable (activeTables : option (list Types.Table))
           (tableId : string) : option Types.Table :=
  match activeTables with
  | Some ts => find (fun t => String.eqb (Types.id t) tableId) ts
  | None => None
  end.

(** [handleTableClick] (ProjectManagement.tsx lines 147-170): the store
    after the update. *)
Definition handleTableClick (userId : string) (now : number)
           (activeTables : option (list Types.Table))
           (store : list Types.Table) (tableId : string) : list Types.Table :=
  match findTable activeTables tableId with
  | None => store
  | Some table =>
      match Types.status table with
      | Types.Pending =>
          updateTable tableId
            (withStatus Types.Completed (Some userId) (Some now)) store
      | Types.Completed =>
          updateTable tableId (withStatus Types.Issue None None) store
      | Types.Issue =>
          updateTable tableId (withStatus Types.Pending None None) store
      end
  end.

(** [toggleTableStatus] (Chat.tsx lines 309-324). *)
Definition toggleTableStatus (userId : string) (now : number)
           (activeTables : option (list Types.Table))
           (store : list Types.Table) (tableId : string) : list Types.Table :=
  match findTable activeTables tableId with
  | Some table =>
      let newStatus :=
        match Types.status table with
        | Types.Pending => Types.Completed
        | Types.Completed => Types.Issue
        | Types.Issue => Types.Pending
        end in
      updateTable tableId
        (withStatus newStatus
           (if Types.status_eqb newStatus Types.Completed
            then Some userId else None)
           (if Types.status_eqb newStatus Types.Completed
            then Some now else None))
        store
  | None => store
  end.

(** ** Progress figures ([getStats], Chat.tsx lines 326-332) *)

Record Stats := {
  total : number;
  completed : number;
  issues : number;
  percent : number
}.

Definition getStats (tables : list Types.Table) : Stats :=
  let total := numberOf (List.length tables) in
  let completed :=
    numberOf (List.length
                (filter (fun t => Types.status_eqb (Types.status t) Types.Completed)
                        tables)) in
  let issues :=
    numberOf (List.length
                (filter (fun t => Types.status_eqb (Types.status t) Types.Issue)
                        tables)) in
  let percent :=
    if Qeq_bool total 0 then 0 else Math_round (completed / total * 100) in
  {| total := total; completed := completed; issues := issues;
     percent := percent |}.

(** ** Choosing the team of a project
    ([toggleTeamMember], ProjectManagement.tsx lines 194-202) *)

(** A [Set] of strings, as the list of its members in insertion order. *)
Definition setHas (s : list string) (a : string) : bool :=
  existsb (String.eqb a) s.
Definition setAdd (s : list string) (a : string) : list string :=
  if setHas s a then s else s ++ [a].
Definition setDelete (s : list string) (a : string) : list string :=
  filter (fun b => negb (String.eqb b a)) s.
Definition newSet (l : list string) : list string := fold_left setAdd l [].

Definition toggleTeamMember (selectedTeamIds : list string) (memberId : string)
  : list string :=
  let s := newSet selectedTeamIds in
  if setHas s memberId then setDelete s memberId else setAdd s memberId.

(** ** Deleting a project
    ([handleDeleteProject], ProjectManagement.tsx lines 134-145) *)

Definition pointsTo (projectId : string) (m : TeamMember.t) : bool :=
  match TeamMember.currentProjectId m with
  | Some p => String.eqb p projectId
  | None => false
  end.

Definition updateMember (key : string) (changes : TeamMember.t -> TeamMember.t)
           (store : list TeamMember.t) : list TeamMember.t :=
  map (fun m => if String.eqb (TeamMember.id m) key then changes m else m) store.

Definition handleDeleteProject (confirmed : bool) (db : Database)
           (projectId : string) : Database :=
  if confirmed then
    let members := filter (pointsTo projectId) (team db) in
    {| projects :=
         filter (fun p => negb (String.eqb (Project.id p) projectId))
                (projects db);
       projectTables :=
         filter (fun t => negb (String.eqb (Types.projectId t) projectId))
                (projectTables db);
       team :=
         fold_left (fun store m =>
                      updateMember (TeamMember.id m)
                                   (TeamMember.setCurrentProjectId "") store)
                   members (team db) |}
  else db.

(** ** The figures of a team member
    ([getMemberStats], ProjectManagement.tsx lines 1308-1323) *)

Module Attendance.

Inductive Kind := Work | Sick | Vacation.

Record t := {
  id : string;
  memberId : string;
  date : string;
  checkIn : number;
  checkOut : option number;
  type : Kind;
  synced : bool
}.

Definition isWork (k : Kind) : bool :=
  match k with
  | Work => true
  | _ => false
  end.

End Attendance.

Record MemberStats := {
  hours : number;
  kw : number;
  tablesDone : number
}.

(** [a.checkOut] as a condition, and [r.checkOut || 0]. *)
Definition checkedOut (a : Attendance.t) : bool :=
  match Attendance.checkOut a with
  | Some v => truthy v
  | None => false
  end.
Definition checkOutOrZero (a : Attendance.t) : number :=
  match Attendance.checkOut a with
  | Some v => if truthy v then v else 0
  | None => 0
  end.

Definition completedByMember (memberId : string) (t : Types.Table) : bool :=
  match Types.completedBy t with
  | Some who => String.eqb who memberId
  | None => false
  end.

Definition getMemberStats (attendanceAll : option (list Attendance.t))
           (tables : option (list Types.Table)) (memberId : string)
  : MemberStats :=
  match attendanceAll, tables with
  | Some attendance, Some tables =>
      (* Calculate Hours *)
      let records :=
        filter (fun a => String.eqb (Attendance.memberId a) memberId
                         && Attendance.isWork (Attendance.type a)
                         && checkedOut a) attendance in
      let totalMs :=
        fold_left (fun acc r => acc + (checkOutOrZero r - Attendance.checkIn r))
                  records 0 in
      let hours := Math_round (totalMs / 3600000 * 10) / 10 in
      (* Calculate Installation *)
      let memberTables := filter (completedByMember memberId) tables in
      let tableCount := numberOf (List.length memberTables) in
      let kw := Math_round (tableCount * 0.5 * 10) / 10 in
      {| hours := hours; kw := kw; tablesDone := tableCount |}
  | _, _ => {| hours := 0; kw := 0; tablesDone := 0 |}
  end.

(** * Statements under examination and their vocabulary *)

Definition scaleInPolicy (st : State) : Prop := 0.2 <= scale st <= 5.

Definition isTouchEvent (ev : Event) : bool :=
  match ev with
  | TouchStart _ | TouchMove _ | TouchEnd => true
  | _ => false
  end.

(** C3 as stated: when two or more tables contain the clicked point, the
    hit test answers the last of them in the order of the list. *)
Definition prefersLast : Prop :=
  forall tables canvas st (e : MouseEvent) (d : Types.Table),
    let hits := filter (underClick (clickX canvas st e) (clickY canvas st e)) tables in
    (2 <= List.length hits)%nat ->
    clickedTable tables canvas st e = Some (last hits d).

(** A press, the moves that follow it, the release, and the click the
    browser delivers at the release point. *)
Definition pointerGesture (down : MouseEvent) (moves : list MouseEvent)
           (up : MouseEvent) : list Event :=
  MouseDown down :: map MouseMove moves ++ [MouseUp; Click up].

(** The release point is nearer to the press point than [threshold]. *)
Definition movedBelow (threshold : number) (down up : MouseEvent) : Prop :=
  (clientX up - clientX down) * (clientX up - clientX down) +
  (clientY up - clientY down) * (clientY up - clientY down)
  < threshold * threshold.



(** ** Rendering vocabulary *)

(** The context a call leaves behind, however it ended. *)
Definition contextOf {A : Type} (o : Canvas2D.outcome A) : Canvas2D.Context :=
  match o with
  | Canvas2D.Returned _ c => c
  | Canvas2D.Thrown _ c => c
  end.

(** The placement rule in the words of the specification: [rectFor] with
    the constants [CELL_WIDTH = 45], [CELL_HEIGHT = 25] and [GAP = 15]. *)
Definition CELL_WIDTH : number := 45.
Definition CELL_HEIGHT : number := 25.
Record Rectangle := {
  rect_x : number;
  rect_y : number;
  rect_width : number;
  rect_height : number
}.
Definition rectFor (logicalX logicalY : number) : Rectangle :=
  {| rect_x := logicalX * (CELL_WIDTH + GAP);
     rect_y := logicalY * (CELL_HEIGHT + GAP);
     rect_width := CELL_WIDTH;
     rect_height := CELL_HEIGHT |}.

(** The shape [drawTable] traces for the body of a table. *)
Definition bodyShape (roundRectSupported : bool) (r : Rectangle) : Canvas2D.Seg :=
  if roundRectSupported
  then Canvas2D.RoundRect (rect_x r) (rect_y r) (rect_width r) (rect_height r) 4
  else Canvas2D.Rect (rect_x r) (rect_y r) (rect_width r) (rect_height r).

(** The 2-D context of [canvasRef.current], when there is one. *)
Definition surfaceContext (canvasRef : option Canvas2D.Canvas)
  : option Canvas2D.Context :=
  match canvasRef with
  | Some canvas => Canvas2D.context2d canvas
  | None => None
  end.

Section RenderVocabulary.

Import Canvas2D.
Local Open Scope canvas_scope.

(** [draw_body] in two halves: up to the stroke of the grid, and from
    [save] to [restore]. *)
Definition drawGrid (exportMode : bool) (st : State) (canvas : Canvas) : M unit :=
  clearRect (width canvas) (height canvas) 0 0 (width canvas) (height canvas) ;;
  (if exportMode then
     set_fillStyle "#ffffff" ;;
     fillRect 0 0 (width canvas) (height canvas)
   else ret tt) ;;
  let gridSize := 50 * scale st in
  set_strokeStyle (if exportMode then "#e2e8f0" else "rgba(0,0,0,0.05)") ;;
  set_lineWidth 1 ;;
  beginPath ;;
  forEach (gridColumn canvas)
          (for_loop (js_rem (x (offset st)) gridSize) (width canvas) gridSize) ;;
  forEach (gridRow canvas)
          (for_loop (js_rem (y (offset st)) gridSize) (height canvas) gridSize) ;;
  stroke.

Definition drawTables (tables : list Types.Table) (st : State) : M unit :=
  save ;;
  translate (x (offset st)) (y (offset st)) ;;
  ctx_scale (scale st) (scale st) ;;
  forEach drawTable tables ;;
  restore.

(** [clearRect (0, 0, width, height)] wipes the whole bitmap of the canvas
    under the matrix of the context. *)
Definition clearsAll (canvas : Canvas) (c : Context) : Prop :=
  covers (transform (state c)) 0 0 (width canvas) (height canvas)
         (width canvas) (height canvas) = true.

(** The surface as the component finds it when a pass begins: no canvas, a
    canvas without a context, or a bitmap of non-negative size whose
    context is at the identity matrix. *)
Definition surfaceAtRest (canvasRef : option Canvas) : Prop :=
  match canvasRef with
  | None => True
  | Some canvas =>
      match context2d canvas with
      | None => True
      | Some c =>
          transform (state c) = identity /\
          0 <= width canvas /\ 0 <= height canvas
      end
  end.

(** Two contexts that a render pass cannot tell apart: it overwrites the
    stroke style, the line width, the path and the bitmap before it reads
    them, and the fill style too in export mode. *)
Definition sameFrame (exportMode : bool) (c c' : Context) : Prop :=
  stack c' = stack c /\
  hasRoundRect c' = hasRoundRect c /\
  transform (state c') = transform (state c) /\
  font (state c') = font (state c) /\
  textAlign (state c') = textAlign (state c) /\
  textBaseline (state c') = textBaseline (state c) /\
  (exportMode = false -> fillStyle (state c') = fillStyle (state c)).

(** A computation that returns and leaves a context the render pass cannot
    tell from the one it started in. *)
Definition keepsFrame (exportMode : bool) (m : M unit) : Prop :=
  forall c, exists c', m c = Returned tt c' /\ sameFrame exportMode c c'.

(** A computation that only extends or replaces the current path. *)
Definition pathOnly (m : M unit) : Prop :=
  forall c, exists p, m c = Returned tt (with_path p c).

(** A table that [drawTable] marks with the exclamation glyph. *)
Definition flagged (t : Types.Table) : bool :=
  Types.status_eqb (Types.status t) Types.Issue.

End RenderVocabulary.

Ltac canvas_eval :=
  cbv [drawTable drawCheckmark drawExclamation gridColumn gridRow
       Canvas2D.bind Canvas2D.ret Canvas2D.modify Canvas2D.throw
       Canvas2D.set_fillStyle Canvas2D.set_strokeStyle Canvas2D.set_lineWidth
       Canvas2D.set_font Canvas2D.set_textAlign Canvas2D.set_textBaseline
       Canvas2D.set_transform Canvas2D.translate Canvas2D.ctx_scale
       Canvas2D.save Canvas2D.restore Canvas2D.beginPath Canvas2D.add_segment
       Canvas2D.moveTo Canvas2D.lineTo Canvas2D.arc Canvas2D.rect
       Canvas2D.roundRect Canvas2D.roundRect_defined Canvas2D.paint
       Canvas2D.fill Canvas2D.stroke Canvas2D.fillRect Canvas2D.fillText
       Canvas2D.with_state Canvas2D.with_stack Canvas2D.with_path
       Canvas2D.with_bitmap Canvas2D.state Canvas2D.stack Canvas2D.path
       Canvas2D.bitmap Canvas2D.hasRoundRect Canvas2D.fillStyle
       Canvas2D.strokeStyle Canvas2D.lineWidth Canvas2D.font
       Canvas2D.textAlign Canvas2D.textBaseline Canvas2D.transform
       Types.status Types.status_eqb Types.type Types.x Types.y contextOf].

Tactic Notation "canvas_eval" "in" hyp(H) :=
  cbv [drawTable drawCheckmark drawExclamation gridColumn gridRow
       Canvas2D.bind Canvas2D.ret Canvas2D.modify Canvas2D.throw
       Canvas2D.set_fillStyle Canvas2D.set_strokeStyle Canvas2D.set_lineWidth
       Canvas2D.set_font Canvas2D.set_textAlign Canvas2D.set_textBaseline
       Canvas2D.set_transform Canvas2D.translate Canvas2D.ctx_scale
       Canvas2D.save Canvas2D.restore Canvas2D.beginPath Canvas2D.add_segment
       Canvas2D.moveTo Canvas2D.lineTo Canvas2D.arc Canvas2D.rect
       Canvas2D.roundRect Canvas2D.roundRect_defined Canvas2D.paint
       Canvas2D.fill Canvas2D.stroke Canvas2D.fillRect Canvas2D.fillText
       Canvas2D.with_state Canvas2D.with_stack Canvas2D.with_path
       Canvas2D.with_bitmap Canvas2D.state Canvas2D.stack Canvas2D.path
       Canvas2D.bitmap Canvas2D.hasRoundRect Canvas2D.fillStyle
       Canvas2D.strokeStyle Canvas2D.lineWidth Canvas2D.font
       Canvas2D.textAlign Canvas2D.textBaseline Canvas2D.transform
       Types.status Types.status_eqb Types.type Types.x Types.y contextOf] in H.

Ltac find_painted :=
  solve [ reflexivity | left; find_painted | right; find_painted ].

Ltac frame_primitive :=
  let c := fresh "c" in
  intros c; destruct c as [[? ? ? ? ? ? ?] ? ? ? ?];
  eexists; split; [reflexivity | unfold sameFrame; repeat split; discriminate].

(** * Vocabulary of the further properties *)

(** A drag that began with a press at [down] in the state [st0]. *)
Definition dragging (st0 : State) (down : MouseEvent) (st : State) : Prop :=
  isDragging st = true /\
  scale st = scale st0 /\
  dragStart st = {| x := clientX down - x (offset st0);
                    y := clientY down - y (offset st0) |}.

(** A move of one finger, as the touch event that reports it. *)
Definition asTouchMove (m : MouseEvent) : Event := TouchMove {| touches := [m] |}.

(** The events that report a move of the mouse or of a single finger. *)
Definition isMoveEvent (ev : Event) : bool :=
  match ev with
  | MouseMove _ => true
  | TouchMove e => match touches e with [_] => true | _ => false end
  | _ => false
  end.

(** [n] presses of a button. *)
Definition presses (n : nat) (button : State -> State) (st : State) : State :=
  Nat.iter n button st.

(** The colour of the grid lines. *)
Definition gridColor (exportMode : bool) : string :=
  if exportMode then "#e2e8f0" else "rgba(0,0,0,0.05)".

(** The background [draw] lays under an export. *)
Definition background (exportMode : bool) (T : Canvas2D.Transform)
           (canvas : Canvas2D.Canvas) : list Canvas2D.Paint :=
  if exportMode
  then [Canvas2D.FilledRect "#ffffff" T 0 0 (Canvas2D.width canvas)
                            (Canvas2D.height canvas)]
  else [].

(** How many paints [drawTable] makes for a table: shadow, body fill, body
    stroke, label, and a glyph of one stroke, or of two fills for an issue. *)
Definition paintsOf (t : Types.Table) : nat := if flagged t then 6%nat else 5%nat.

(** A drawing state and a context with the fill style forgotten, in the
    current state and in every saved one. *)
Definition forgetFillState (s : Canvas2D.DrawState) : Canvas2D.DrawState :=
  {| Canvas2D.fillStyle := "";
     Canvas2D.strokeStyle := Canvas2D.strokeStyle s;
     Canvas2D.lineWidth := Canvas2D.lineWidth s;
     Canvas2D.font := Canvas2D.font s;
     Canvas2D.textAlign := Canvas2D.textAlign s;
     Canvas2D.textBaseline := Canvas2D.textBaseline s;
     Canvas2D.transform := Canvas2D.transform s |}.
Definition forgetFill (c : Canvas2D.Context) : Canvas2D.Context :=
  {| Canvas2D.state := forgetFillState (Canvas2D.state c);
     Canvas2D.stack := map forgetFillState (Canvas2D.stack c);
     Canvas2D.path := Canvas2D.path c;
     Canvas2D.bitmap := Canvas2D.bitmap c;
     Canvas2D.hasRoundRect := Canvas2D.hasRoundRect c |}.

(** Two calls ended alike: the same way, on contexts that differ in fill
    styles at most. *)
Definition endedAlike {A : Type} (o1 o2 : Canvas2D.outcome A) : Prop :=
  match o1, o2 with
  | Canvas2D.Returned _ c1, Canvas2D.Returned _ c2 => forgetFill c1 = forgetFill c2
  | Canvas2D.Thrown e1 c1, Canvas2D.Thrown e2 c2 =>
      e1 = e2 /\ forgetFill c1 = forgetFill c2
  | _, _ => False
  end.

(** A computation that never reads a fill style it has not set itself. *)
Definition fillBlind (m : Canvas2D.M unit) : Prop :=
  forall c1 c2, forgetFill c1 = forgetFill c2 -> endedAlike (m c1) (m c2).

(** ** Vocabulary for the layouts *)

(** A table that sits on a cell of the integer grid. *)
Definition onGrid (t : Types.Table) : Prop :=
  exists i j : Z, Types.x t == inject_Z i /\ Types.y t == inject_Z j.

(** No two places of the list hold tables of the same cell. *)
Definition distinctCells (tables : list Types.Table) : Prop :=
  forall (i j : nat) (t u : Types.Table),
    nth_error tables i = Some t -> nth_error tables j = Some u ->
    Types.x t == Types.x u -> Types.y t == Types.y u -> i = j.

Definition gridLayout (tables : list Types.Table) : Prop :=
  (forall t, In t tables -> onGrid t) /\ distinctCells tables.

(** The type of the [k]-th table laid out for the given numbers of small and
    medium tables. *)
Definition typeAt (smalls mediums k : nat) : Types.TableType :=
  if (k <? smalls)%nat then Types.Small
  else if (k <? smalls + mediums)%nat then Types.Medium
  else Types.Large.

(** ** Vocabulary for the status of tables *)

(** What a table is and where it stands: everything but its status and
    completion. *)
Definition placement (t : Types.Table)
  : string * string * number * Types.TableType * number * number :=
  (Types.id t, Types.projectId t, Types.index t, Types.type t,
   Types.x t, Types.y t).

Definition nextStatus (s : Types.TableStatus) : Types.TableStatus :=
  match s with
  | Types.Pending => Types.Completed
  | Types.Completed => Types.Issue
  | Types.Issue => Types.Pending
  end.

(** The live list of the tables of a project (here in the order of the
    store; the handlers look a table up by its id only). *)
Definition liveTables (projectId : string) (store : list Types.Table)
  : list Types.Table :=
  filter (fun t => String.eqb (Types.projectId t) projectId) store.

(** A table records who completed it, and when, exactly while it is
    completed. *)
Definition recordsCompletion (t : Types.Table) : Prop :=
  match Types.status t with
  | Types.Completed =>
      Types.completedBy t <> None /\ Types.completedAt t <> None
  | _ => Types.completedBy t = None /\ Types.completedAt t = None
  end.

(** One click reported by the plan: who clicked, when, on which list the
    handler looked the table up, and the id reported. *)
Record TableClick := {
  clickUser : string;
  clickTime : number;
  clickActive : option (list Types.Table);
  clickId : string
}.

Definition applyClick (store : list Types.Table) (c : TableClick)
  : list Types.Table :=
  handleTableClick (clickUser c) (clickTime c) (clickActive c) store (clickId c).

(** A click on the plan, through [onTableClick], to the store: the plan
    shows the live list [tables] and the caller looks the table up in it. *)
Definition clickThrough (userId : string) (now : number)
           (tables : list Types.Table) (canvasRef : option Canvas2D.Canvas)
           (st : State) (e : MouseEvent) (store : list Types.Table)
  : list Types.Table :=
  fold_left (fun s tableId => handleTableClick userId now (Some tables) s tableId)
            (handleClick tables canvasRef st e) store.

(** What a click does to the table it reports. *)
Definition advance (userId : string) (now : number) (t : Types.Table)
  : Types.Table :=
  match Types.status t with
  | Types.Pending => withStatus Types.Completed (Some userId) (Some now) t
  | Types.Completed => withStatus Types.Issue None None t
  | Types.Issue => withStatus Types.Pending None None t
  end.

(** A store in which the table with the id [key] has been advanced. *)
Definition advanceAt (userId : string) (now : number) (key : string)
           (store : list Types.Table) : list Types.Table :=
  map (fun x => if String.eqb (Types.id x) key then advance userId now x else x)
      store.

(** The cursor of the other layout after [n] tables, twenty to a row. *)
Definition cursorAfter (n : nat) (cur : Cursor) : Prop :=
  currentX cur = (n mod 20)%nat /\
  currentY cur = (n / 20)%nat /\
  List.length (placed cur) = n /\
  forall (k : nat) (t : Types.Table),
    nth_error (placed cur) k = Some t ->
    Types.x t = numberOf (k mod 20) /\
    Types.y t = numberOf (k / 20) /\
    Types.status t = Types.Pending /\
    Types.completedBy t = None /\ Types.completedAt t = None.

(** The working time of a member, in milliseconds: the finished work
    records of the member, check-out less check-in, added up. *)
Definition workedMs (attendance : list Attendance.t) (memberId : string) : number :=
  fold_left (fun acc r => acc + (checkOutOrZero r - Attendance.checkIn r))
            (filter (fun a => String.eqb (Attendance.memberId a) memberId
                              && Attendance.isWork (Attendance.type a)
                              && checkedOut a) attendance) 0.
(** * Properties *)

(** ** Clamping *)

Lemma clamp_in_policy (v : number) :
  0.2 <= Math_min (Math_max v 0.2) 5 <= 5.
Proof.
  unfold Math_min, Math_max. split.
  - apply Q.min_glb.
    + apply Q.le_max_r.
    + discriminate.
  - apply Q.le_min_r.
Qed.

Lemma clamp_inside (v : number) :
  0.2 <= v -> v <= 5 -> Math_min (Math_max v 0.2) 5 == v.
Proof.
  intros Hlo Hhi. unfold Math_min, Math_max.
  rewrite (Q.max_l v 0.2 Hlo). now apply Q.min_l.
Qed.

Lemma zoomIn_in_policy (st : State) : scaleInPolicy st -> scaleInPolicy (zoomIn st).
Proof.
  unfold scaleInPolicy, zoomIn, Math_min. cbn [scale setScale].
  intros [Hlo Hhi]. split.
  - apply Q.min_glb; [lra | discriminate].
  - apply Q.le_min_r.
Qed.

Lemma zoomOut_in_policy (st : State) : scaleInPolicy st -> scaleInPolicy (zoomOut st).
Proof.
  unfold scaleInPolicy, zoomOut, Math_max. cbn [scale setScale].
  intros [Hlo Hhi]. split.
  - apply Q.le_max_r.
  - apply Q.max_lub; [lra | discriminate].
Qed.

Lemma handleTouchMove_in_policy hypot (st : State) (e : TouchEvent) :
  scaleInPolicy st -> scaleInPolicy (handleTouchMove hypot st e).
Proof.
  intros Hst. unfold handleTouchMove.
  destruct (touches e) as [|t0 [|t1 [|t2 rest]]]; try exact Hst.
  - destruct (isDragging st); exact Hst.
  - destruct (lastTouchDistance st) as [last|]; [|exact Hst].
    destruct (truthy last); [|exact Hst].
    unfold scaleInPolicy. cbn [scale setScale setLastTouchDistance].
    apply clamp_in_policy.
Qed.

Lemma handleTouchStart_scale hypot (st : State) (e : TouchEvent) :
  scale (handleTouchStart hypot st e) = scale st.
Proof.
  unfold handleTouchStart.
  destruct (touches e) as [|t0 [|t1 [|t2 rest]]]; reflexivity.
Qed.

Lemma step_in_policy hypot tables canvasRef (st : State) (ev : Event) :
  scaleInPolicy st -> scaleInPolicy (fst (step hypot tables canvasRef st ev)).
Proof.
  intros Hst. destruct ev; cbn [step fst]; try exact Hst.
  - unfold handleMouseMove. destruct (isDragging st); exact Hst.
  - apply clamp_in_policy.
  - unfold scaleInPolicy. now rewrite handleTouchStart_scale.
  - now apply handleTouchMove_in_policy.
  - now apply zoomIn_in_policy.
  - now apply zoomOut_in_policy.
  - unfold scaleInPolicy; cbn; split; discriminate.
Qed.

Lemma run_in_policy hypot tables canvasRef (evs : list Event) :
  forall st, scaleInPolicy st ->
             scaleInPolicy (fst (run hypot tables canvasRef st evs)).
Proof.
  induction evs as [|ev rest IH]; intros st Hst; cbn [run].
  - exact Hst.
  - pose proof (step_in_policy hypot tables canvasRef st ev Hst) as H1.
    destruct (step hypot tables canvasRef st ev) as [st1 calls1].
    specialize (IH st1 H1).
    destruct (run hypot tables canvasRef st1 rest) as [st2 calls2].
    exact IH.
Qed.

(** C4.  Whatever events the component receives from its initial state
    (wheel, pinch, the zoom buttons, reset, and every other event), with
    whatever [Math.hypot], tables and canvas, the scale it ends with lies in
    [[0.2, 5]]. *)
Theorem scale_clamping_invariant :
  forall hypot tables canvasRef (evs : list Event),
    0.2 <= scale (fst (run hypot tables canvasRef initialState evs)) <= 5.
Proof.
  intros hypot tables canvasRef evs.
  apply (run_in_policy hypot tables canvasRef evs initialState).
  split; discriminate.
Qed.

(** ** Zoom and the offset *)

Lemma handleTouchMove_pinch_frame hypot (st : State) (t0 t1 : Touch) :
  let st' := handleTouchMove hypot st {| touches := [t0; t1] |} in
  offset st' = offset st /\
  isDragging st' = isDragging st /\
  dragStart st' = dragStart st.
Proof.
  unfold handleTouchMove. cbn [touches].
  destruct (lastTouchDistance st) as [last|]; [|repeat split].
  destruct (truthy last); repeat split.
Qed.

(** C10.  A wheel event and a two-finger move change the scale cell only:
    the offset (both components), the drag flag and the drag anchor are the
    ones of the state before. *)
Theorem zoom_changes_scale_only :
  (forall st (e : WheelEvent),
      offset (handleWheel st e) = offset st /\
      isDragging (handleWheel st e) = isDragging st /\
      dragStart (handleWheel st e) = dragStart st) /\
  (forall hypot st (t0 t1 : Touch),
      let st' := handleTouchMove hypot st {| touches := [t0; t1] |} in
      offset st' = offset st /\
      isDragging st' = isDragging st /\
      dragStart st' = dragStart st).
Proof.
  split.
  - intros st e. repeat split.
  - intros hypot st t0 t1. apply handleTouchMove_pinch_frame.
Qed.

(** ** Touches and activation *)

Lemma touch_run_silent hypot tables canvasRef (evs : list Event) :
  forall st, snd (run hypot tables canvasRef st (filter isTouchEvent evs)) = [].
Proof.
  induction evs as [|ev rest IH]; intros st; [reflexivity|].
  destruct ev; cbn [filter isTouchEvent]; try apply IH;
    cbn [run step];
    match goal with
    | |- context [run _ _ _ ?s _] =>
        specialize (IH s); destruct (run hypot tables canvasRef s _); exact IH
    end.
Qed.

(** C7.  A touch start with two contacts clears the drag flag, leaves the
    offset alone and calls [onTableClick] with nothing, and a one-finger
    move that follows it pans nothing; a touch end clears the drag flag and
    the recorded distance and calls nothing; no sequence of touch events
    (starts, moves, ends) ever calls [onTableClick]. *)
Theorem pinch_never_taps :
  forall hypot tables canvasRef st,
    (forall t0 t1 : Touch,
        let r := step hypot tables canvasRef st
                      (TouchStart {| touches := [t0; t1] |}) in
        snd r = [] /\ isDragging (fst r) = false /\ offset (fst r) = offset st /\
        forall t : Touch,
          offset (handleTouchMove hypot (fst r) {| touches := [t] |}) = offset st) /\
    (let r := step hypot tables canvasRef st TouchEnd in
     snd r = [] /\ isDragging (fst r) = false /\
     lastTouchDistance (fst r) = None) /\
    (forall evs : list Event,
        snd (run hypot tables canvasRef st (filter isTouchEvent evs)) = []).
Proof.
  intros hypot tables canvasRef st. split; [|split].
  - intros t0 t1. repeat split.
  - repeat split.
  - intros evs. apply touch_run_silent.
Qed.

(** ** Hit testing *)

Lemma find_is_first_match {A : Type} (p : A -> bool) (l : list A) :
  match find p l with
  | Some a =>
      exists before after,
        l = before ++ a :: after /\ p a = true /\
        forall u, In u before -> p u = false
  | None => forall u, In u l -> p u = false
  end.
Proof.
  induction l as [|a l IH]; cbn [find].
  - intros u [].
  - destruct (p a) eqn:Hpa.
    + exists [], l. repeat split; [assumption | intros u []].
    + destruct (find p l) as [b|].
      * destruct IH as (before & after & -> & Hb & Hbefore).
        exists (a :: before), after. repeat split; [assumption|].
        intros u [<- | Hu]; [assumption | now apply Hbefore].
      * intros u [<- | Hu]; [assumption | now apply IH].
Qed.

Lemma find_head_filter {A : Type} (p : A -> bool) (l : list A) :
  find p l = hd_error (filter p l).
Proof.
  induction l as [|a l IH]; [reflexivity|].
  cbn [find filter]. destruct (p a); [reflexivity | exact IH].
Qed.

(** C3, counterexample.  Two tables [a] and [b] at the same grid cell, in
    this order, and a click at (70, 60) in the initial view: both contain the
    point, the last of them is [b], and [onTableClick] is called with [a]. *)
Lemma tie_break_counterexample :
  let a := sampleTable "a" 0 0 Types.Pending in
  let b := sampleTable "b" 0 0 Types.Pending in
  let canvas := sampleCanvas None in
  let e := {| clientX := 70; clientY := 60 |} in
  filter (underClick (clickX canvas initialState e) (clickY canvas initialState e))
         [a; b] = [a; b] /\
  handleClick [a; b] (Some canvas) initialState e = ["a"%string] /\
  ~ prefersLast.
Proof.
  cbv zeta. split; [reflexivity|]. split; [reflexivity|].
  intros H.
  specialize (H [sampleTable "a" 0 0 Types.Pending; sampleTable "b" 0 0 Types.Pending]
                (sampleCanvas None) initialState
                {| clientX := 70; clientY := 60 |}
                (sampleTable "a" 0 0 Types.Pending)).
  vm_compute in H. specialize (H (le_n 2)). discriminate H.
Qed.

(** C3, amended.  The hit test answers the first table, in the order of the
    list, whose rectangle contains the clicked point: every table before the
    answer misses the point; with no answer every table misses it. *)
Theorem hit_test_prefers_first :
  forall tables canvas st (e : MouseEvent),
    let hit := underClick (clickX canvas st e) (clickY canvas st e) in
    match clickedTable tables canvas st e with
    | Some t =>
        exists before after,
          tables = before ++ t :: after /\ hit t = true /\
          forall u, In u before -> hit u = false
    | None => forall u, In u tables -> hit u = false
    end.
Proof.
  intros tables canvas st e. cbv zeta. unfold clickedTable.
  apply find_is_first_match.
Qed.

(** ** Taps and drags *)

Lemma underClick_iff (cx cy : number) (t : Types.Table) :
  underClick cx cy t = true <->
  Types.x t * (TABLE_WIDTH + GAP) <= cx /\
  cx <= Types.x t * (TABLE_WIDTH + GAP) + TABLE_WIDTH /\
  Types.y t * (TABLE_HEIGHT + GAP) <= cy /\
  cy <= Types.y t * (TABLE_HEIGHT + GAP) + TABLE_HEIGHT.
Proof.
  unfold underClick. rewrite !andb_true_iff, !Qle_bool_iff. tauto.
Qed.

Lemma drag_then_click_activates (T : number) :
  let down := {| clientX := 70; clientY := 60 |} in
  let up := {| clientX := 70 + T; clientY := 60 |} in
  snd (run hypot_floor [sampleTable "t1" 0 0 Types.Pending]
           (Some (sampleCanvas None)) initialState
           (pointerGesture down [up] up)) = ["t1"%string].
Proof.
  cbv zeta.
  cbn [pointerGesture map app run step fst snd handleMouseDown handleMouseMove
       handleMouseUp setIsDragging setDragStart setOffset isDragging offset
       dragStart scale lastTouchDistance initialState x y clientX clientY].
  unfold handleClick, clickedTable.
  cbn [isDragging handleMouseUp setIsDragging find].
  match goal with
  | |- context [underClick ?cx ?cy ?t] =>
      assert (Hhit : underClick cx cy t = true)
  end.
  { apply underClick_iff.
    unfold clickX, clickY, TABLE_WIDTH, TABLE_HEIGHT, GAP.
    cbn [sampleTable Types.x Types.y sampleCanvas Canvas2D.rect_left
         Canvas2D.rect_top setOffset handleMouseDown handleMouseUp setDragStart
         setIsDragging offset scale initialState x y clientX clientY].
    assert (D : forall q : Q, q / 1 == q) by (intro q; field).
    rewrite !D. repeat split; lra. }
  rewrite Hhit. reflexivity.
Qed.

Lemma run_app hypot tables canvasRef (l1 l2 : list Event) :
  forall st,
    run hypot tables canvasRef st (l1 ++ l2)
    = (fst (run hypot tables canvasRef (fst (run hypot tables canvasRef st l1)) l2),
       snd (run hypot tables canvasRef st l1)
       ++ snd (run hypot tables canvasRef (fst (run hypot tables canvasRef st l1)) l2)).
Proof.
  induction l1 as [|ev l1 IH]; intros st; cbn [app run].
  - cbn [fst snd app]. now destruct (run hypot tables canvasRef st l2).
  - destruct (step hypot tables canvasRef st ev) as [st1 calls1].
    rewrite (IH st1).
    destruct (run hypot tables canvasRef st1 l1) as [st2 calls2].
    cbn [fst snd]. now rewrite app_assoc.
Qed.

Lemma moves_are_silent hypot tables canvasRef (moves : list MouseEvent) :
  forall st, snd (run hypot tables canvasRef st (map MouseMove moves)) = [].
Proof.
  induction moves as [|m moves IH]; intros st; [reflexivity|].
  cbn [map run step]. specialize (IH (handleMouseMove st m)).
  destruct (run hypot tables canvasRef (handleMouseMove st m) (map MouseMove moves)).
  exact IH.
Qed.

(** What a whole gesture calls: the click that ends it is hit-tested in the
    view the moves left, whatever the distance between press and release. *)
Lemma pointerGesture_calls hypot tables canvas st (down : MouseEvent)
      (moves : list MouseEvent) (up : MouseEvent) :
  let r := run hypot tables (Some canvas) st (pointerGesture down moves up) in
  isDragging (fst r) = false /\
  snd r = map Types.id
              (firstn 1 (filter (underClick (clickX canvas (fst r) up)
                                            (clickY canvas (fst r) up)) tables)).
Proof.
  cbv zeta. unfold pointerGesture. cbn [run step].
  rewrite run_app. cbn [fst snd app].
  rewrite moves_are_silent. cbn [app run step fst snd].
  set (dragged := fst (run hypot tables (Some canvas) (handleMouseDown st down)
                           (map MouseMove moves))).
  split; [reflexivity|].
  rewrite app_nil_r. unfold handleClick, clickedTable.
  cbn [isDragging handleMouseUp setIsDragging]. rewrite find_head_filter.
  destruct (filter _ tables) as [|t rest]; reflexivity.
Qed.

(** C2, the defect.  [handleClick] opens with a guard meant to drop the
    click that ends a drag: with the drag flag up it calls nothing.  The
    guard never sees a drag.  The release ([handleMouseUp], also wired to
    the pointer leaving) clears the flag before the browser delivers the
    click, so after every press, moves and release the click is hit-tested
    at the release point and calls [onTableClick] for the table found there
    (and nothing when no table is there), whatever the distance moved: the
    first half of the statement holds for every gesture, the second half
    for none that ends on a table.  At the failing input, for every
    threshold: a press at (70, 60) on a table, a drag to the right as long
    as the threshold, and the release there call [onTableClick] for the
    table, which the drag carried along under the pointer. *)
Theorem drag_release_still_activates :
  (forall tables canvasRef st (e : MouseEvent),
      isDragging st = true -> handleClick tables canvasRef st e = []) /\
  (forall hypot tables canvas st (down : MouseEvent) (moves : list MouseEvent)
          (up : MouseEvent),
      let released :=
        fst (run hypot tables (Some canvas) st
                 (MouseDown down :: map MouseMove moves ++ [MouseUp])) in
      isDragging released = false /\
      snd (run hypot tables (Some canvas) st (pointerGesture down moves up))
      = match clickedTable tables canvas released up with
        | Some t => [Types.id t]
        | None => []
        end) /\
  (forall threshold : number,
      let down := {| clientX := 70; clientY := 60 |} in
      let up := {| clientX := 70 + threshold; clientY := 60 |} in
      ~ movedBelow threshold down up /\
      snd (run hypot_floor [sampleTable "t1" 0 0 Types.Pending]
               (Some (sampleCanvas None)) initialState
               (pointerGesture down [up] up)) = ["t1"%string]).
Proof.
  split; [|split].
  - intros tables canvasRef st e H. unfold handleClick. now rewrite H.
  - intros hypot tables canvas st down moves up. cbv zeta.
    unfold pointerGesture. cbn [run step fst snd].
    change [MouseUp; Click up] with ([MouseUp] ++ [Click up]).
    rewrite !run_app. cbn [fst snd].
    rewrite moves_are_silent. cbn [app run step fst snd].
    split; [reflexivity|].
    unfold handleClick. cbn [isDragging handleMouseUp setIsDragging].
    destruct (clickedTable _ _ _ _); reflexivity.
  - intros T. cbv zeta. split.
    + unfold movedBelow. cbn [clientX clientY].
      assert (E : (70 + T - 70) * (70 + T - 70) + (60 - 60) * (60 - 60) == T * T)
        by ring.
      rewrite E. apply Qlt_irrefl.
    + apply (drag_then_click_activates T).
Qed.

Lemma drag_release_still_activates_witness :
  let e := {| clientX := 70; clientY := 60 |} in
  handleClick [sampleTable "t1" 0 0 Types.Pending] (Some (sampleCanvas None))
              (handleMouseDown initialState e) e = [].
Proof.
  cbv zeta. apply (proj1 drag_release_still_activates). reflexivity.
Defined.

(** ** Zoom and the point under the pointer *)

Lemma toScreenX_eq (st : State) (lx : number) :
  toScreenX st lx == scale st * lx + x (offset st).
Proof.
  unfold toScreenX, viewMatrix, Canvas2D.apply_x, Canvas2D.scale_by,
    Canvas2D.translate_by, Canvas2D.identity.
  cbn [Canvas2D.m_a Canvas2D.m_e]. ring.
Qed.

Lemma toScreenY_eq (st : State) (ly : number) :
  toScreenY st ly == scale st * ly + y (offset st).
Proof.
  unfold toScreenY, viewMatrix, Canvas2D.apply_y, Canvas2D.scale_by,
    Canvas2D.translate_by, Canvas2D.identity.
  cbn [Canvas2D.m_d Canvas2D.m_f]. ring.
Qed.





(** ** Pinch arithmetic *)

Lemma truthy_of_eq (d v : number) : d == v -> ~ v == 0 -> truthy d = true.
Proof.
  intros E Hv. unfold truthy.
  destruct (Qeq_bool d 0) eqn:Hd; [|reflexivity].
  apply Qeq_bool_eq in Hd. exfalso. apply Hv. now rewrite <- E.
Qed.

Lemma clamp_compat (v w : number) :
  v == w -> Math_min (Math_max v 0.2) 5 == Math_min (Math_max w 0.2) 5.
Proof.
  intros E. unfold Math_min, Math_max. now rewrite E.
Qed.

(** The same figures in binary64: the literal 0.005 is the double
    0x1.47ae147ae147bp-8, its product with 150 - 100 rounds to 0.25 exactly,
    and adding that to the scale 1 gives 1.25 exactly. *)
Lemma pinch_delta_binary64 :
  ((150 - 100) * 0x1.47ae147ae147bp-8 = 0.25)%float /\
  (1 + (150 - 100) * 0x1.47ae147ae147bp-8 = 1.25)%float.
Proof. split; reflexivity. Qed.

(** C6.  Two contacts that [Math.hypot] measures 100 pixels apart at the
    touch start and 150 pixels apart at the next move: the scale after the
    move is the scale before plus 0.25, clamped to [[0.2, 5]]; it is the
    scale before plus 0.25 itself whenever that lies within the bounds. *)
Theorem pinch_zoom_arithmetic :
  forall hypot st (a b c d : Touch),
    hypot (clientX a - clientX b) (clientY a - clientY b) == 100 ->
    hypot (clientX c - clientX d) (clientY c - clientY d) == 150 ->
    let st' := handleTouchMove hypot
                 (handleTouchStart hypot st {| touches := [a; b] |})
                 {| touches := [c; d] |} in
    (150 - 100) * 0.005 == 0.25 /\
    scale st' == Math_min (Math_max (scale st + 0.25) 0.2) 5 /\
    (0.2 <= scale st + 0.25 -> scale st + 0.25 <= 5 ->
     scale st' == scale st + 0.25).
Proof.
  intros hypot st a b c d H100 H150. cbv zeta.
  assert (E : scale (handleTouchMove hypot
                       (handleTouchStart hypot st {| touches := [a; b] |})
                       {| touches := [c; d] |})
              == Math_min (Math_max (scale st + 0.25) 0.2) 5).
  { unfold handleTouchStart, handleTouchMove.
    cbn [touches lastTouchDistance setLastTouchDistance setIsDragging].
    rewrite (truthy_of_eq _ 100 H100) by discriminate.
    cbn [scale setScale setLastTouchDistance setIsDragging].
    apply clamp_compat. rewrite H100, H150. lra. }
  split; [reflexivity|]. split; [exact E|].
  intros Hlo Hhi. rewrite E. now apply clamp_inside.
Qed.

Lemma pinch_zoom_arithmetic_witness :
  let a := {| clientX := 0; clientY := 0 |} in
  let b := {| clientX := 100; clientY := 0 |} in
  let d := {| clientX := 150; clientY := 0 |} in
  scale (handleTouchMove hypot_floor
           (handleTouchStart hypot_floor initialState {| touches := [a; b] |})
           {| touches := [a; d] |})
  == scale initialState + 0.25.
Proof.
  cbv zeta.
  refine (proj2 (proj2 (pinch_zoom_arithmetic hypot_floor initialState
                          {| clientX := 0; clientY := 0 |}
                          {| clientX := 100; clientY := 0 |}
                          {| clientX := 0; clientY := 0 |}
                          {| clientX := 150; clientY := 0 |} _ _)) _ _).
  - vm_compute. reflexivity.
  - vm_compute. reflexivity.
  - vm_compute. discriminate.
  - vm_compute. discriminate.
Defined.

(** ** A missing drawing surface *)




(** ** The grid loops *)

Lemma Qlt_bool_iff (a b : Q) : Qlt_bool a b = true <-> a < b.
Proof.
  unfold Qlt_bool. rewrite negb_true_iff. split.
  - intros H. apply Qnot_le_lt. intros Hle. apply Qle_bool_iff in Hle. congruence.
  - intros H. destruct (Qle_bool b a) eqn:E; [|reflexivity].
    apply Qle_bool_iff in E. lra.
Qed.

Lemma loop_values_In (n : nat) : forall v step w : Q,
  In w (loop_values n v step) ->
  exists k : nat, (k < n)%nat /\ w == v + inject_Z (Z.of_nat k) * step.
Proof.
  induction n as [|n IH]; intros v step w H; cbn [loop_values In] in H;
    [contradiction|].
  destruct H as [<- | H].
  - exists 0%nat. split; [lia|]. cbn. ring.
  - destruct (IH _ _ _ H) as (k & Hk & E). exists (S k). split; [lia|].
    rewrite E, Nat2Z.inj_succ. unfold Z.succ. rewrite inject_Z_plus. ring.
Qed.

Lemma loop_values_length (n : nat) (v step : Q) :
  List.length (loop_values n v step) = n.
Proof. revert v. induction n; intros v; cbn; [reflexivity | now rewrite IHn]. Qed.

(** With a positive step, [for_loop] lists the values the loop variable
    takes: every one is below the limit, and the value after the last one
    is not. *)
Lemma for_loop_spec (start limit step : Q) :
  0 < step ->
  (forall v, In v (for_loop start limit step) -> v < limit) /\
  limit <= start + inject_Z (Z.of_nat (List.length (for_loop start limit step))) * step.
Proof.
  intros Hs. unfold for_loop, loop_count.
  rewrite (proj2 (Qlt_bool_iff 0 step) Hs).
  set (q := (limit - start) / step).
  assert (Hq : limit - start == q * step) by (unfold q; field; lra).
  split.
  - intros v Hv. apply loop_values_In in Hv. destruct Hv as (k & Hk & ->).
    assert (Hk' : (Z.of_nat k < Qceiling q)%Z) by lia.
    assert (Hlt : inject_Z (Z.of_nat k) < q).
    { apply Qle_lt_trans with (inject_Z (Qceiling q - 1)).
      - rewrite <- Zle_Qle. lia.
      - apply Qceiling_lt. }
    assert (inject_Z (Z.of_nat k) * step < q * step)
      by (apply Qmult_lt_r; assumption).
    lra.
  - rewrite loop_values_length.
    assert (Hge : q <= inject_Z (Z.of_nat (Z.to_nat (Qceiling q)))).
    { apply Qle_trans with (inject_Z (Qceiling q)); [apply Qle_ceiling|].
      rewrite <- Zle_Qle. lia. }
    assert (q * step <= inject_Z (Z.of_nat (Z.to_nat (Qceiling q))) * step)
      by (apply Qmult_le_compat_r; lra).
    lra.
Qed.

Example hypot_floor_3_4 : hypot_floor 3 4 == 5.
Proof. reflexivity. Qed.

Example js_rem_signs : js_rem (-130) 50 == -30 /\ js_rem 130 50 == 30.
Proof. split; reflexivity. Qed.

(** ** Placement *)

Section RenderFacts.

Import Canvas2D.
Local Open Scope canvas_scope.

Lemma drawTable_paints_body (t : Types.Table) (c : Context) :
  let r := rectFor (Types.x t) (Types.y t) in
  let T := transform (state c) in
  let shape := bodyShape (hasRoundRect c) r in
  let after := bitmap (contextOf (drawTable t c)) in
  In (FilledRect (shadowColor (Types.status t)) T
                 (rect_x r + 3) (rect_y r + 3) (rect_width r) (rect_height r))
     after /\
  In (Filled (fillColor (Types.status t)) [(T, shape)]) after /\
  In (Stroked (strokeColor (Types.status t))
              (if Types.status_eqb (Types.status t) Types.Pending then 1 else 2)
              T [(T, shape)]) after.
Proof.
  destruct t as [tid pid idx ty s tx ty' cb ca].
  destruct c as [[fs ss lw fnt ta tb T] k p b rr].
  destruct s, rr; canvas_eval; cbn [app];
    repeat split; rewrite !in_app_iff; cbn [In]; find_painted.
Qed.

(** C5.  The constants are 45, 25 and 15.  For every table, the rectangle
    [rectFor] gives for its grid cell (x = logicalX * (45 + 15),
    y = logicalY * (25 + 15), 45 wide, 25 high) is the one the renderer
    fills and strokes as the body of the table (as a rounded rectangle, or a
    plain one on a context without [roundRect]; the shadow is the same
    rectangle moved by (3, 3)), and it is the one the hit tester compares
    the clicked point with, borders included. *)
Theorem placement_formula :
  TABLE_WIDTH = 45 /\ TABLE_HEIGHT = 25 /\ GAP = 15 /\
  forall t : Types.Table,
    let r := rectFor (Types.x t) (Types.y t) in
    (rect_x r = Types.x t * (45 + 15) /\ rect_y r = Types.y t * (25 + 15) /\
     rect_width r = 45 /\ rect_height r = 25) /\
    (forall c : Context,
        let T := transform (state c) in
        let shape := bodyShape (hasRoundRect c) r in
        let after := bitmap (contextOf (drawTable t c)) in
        In (Filled (fillColor (Types.status t)) [(T, shape)]) after /\
        In (Stroked (strokeColor (Types.status t))
                    (if Types.status_eqb (Types.status t) Types.Pending
                     then 1 else 2)
                    T [(T, shape)]) after) /\
    (forall cx cy : number,
        underClick cx cy t = true <->
        rect_x r <= cx /\ cx <= rect_x r + rect_width r /\
        rect_y r <= cy /\ cy <= rect_y r + rect_height r).
Proof.
  repeat (split; [reflexivity|]).
  intros t r. split; [repeat split|]. split.
  - intros c. apply (drawTable_paints_body t c).
  - intros cx cy. apply underClick_iff.
Qed.

(** ** The render pass *)

Lemma bind_assoc {A B C : Type} (m : M A) (f : A -> M B) (g : B -> M C) (c : Context) :
  bind (bind m f) g c = bind m (fun a => bind (f a) g) c.
Proof.
  unfold bind. destruct (m c); reflexivity.
Qed.

Lemma with_path_idem (c : Context) : with_path (path c) c = c.
Proof. destruct c; reflexivity. Qed.

Lemma gridColumn_pathOnly canvas gx : pathOnly (gridColumn canvas gx).
Proof. intros c. eexists. canvas_eval. reflexivity. Qed.

Lemma gridRow_pathOnly canvas gy : pathOnly (gridRow canvas gy).
Proof. intros c. eexists. canvas_eval. reflexivity. Qed.

Lemma forEach_pathOnly {A : Type} (f : A -> M unit) (l : list A) :
  (forall a, pathOnly (f a)) -> pathOnly (forEach f l).
Proof.
  intros Hf. induction l as [|a l IH]; intros c; cbn [forEach].
  - exists (path c). unfold ret. now rewrite with_path_idem.
  - destruct (Hf a c) as [p Hp]. unfold bind. rewrite Hp.
    destruct (IH (with_path p c)) as [q Hq]. rewrite Hq.
    exists q. reflexivity.
Qed.

Lemma bind_ext {A B : Type} (m : M A) (f g : A -> M B) (c : Context) :
  (forall a c', f a c' = g a c') -> bind m f c = bind m g c.
Proof.
  intros H. unfold bind. destruct (m c); [apply H | reflexivity].
Qed.

Lemma draw_body_split mode tables st canvas (c : Context) :
  draw_body mode tables st canvas c
  = (drawGrid mode st canvas ;; drawTables tables st) c.
Proof.
  unfold draw_body, drawGrid, drawTables. cbv zeta. symmetry.
  repeat (rewrite bind_assoc; apply bind_ext; intros [] ?).
  reflexivity.
Qed.

Lemma sameFrame_refl mode (c : Context) : sameFrame mode c c.
Proof. unfold sameFrame. repeat split. Qed.

Lemma sameFrame_trans mode (c1 c2 c3 : Context) :
  sameFrame mode c1 c2 -> sameFrame mode c2 c3 -> sameFrame mode c1 c3.
Proof.
  unfold sameFrame.
  intros (A1 & A2 & A3 & A4 & A5 & A6 & A7) (B1 & B2 & B3 & B4 & B5 & B6 & B7).
  repeat split; try congruence.
  intros Hm. rewrite (B7 Hm). exact (A7 Hm).
Qed.

Lemma sameFrame_sym mode (c1 c2 : Context) :
  sameFrame mode c1 c2 -> sameFrame mode c2 c1.
Proof.
  unfold sameFrame. intros (A1 & A2 & A3 & A4 & A5 & A6 & A7).
  repeat split; try congruence. intros Hm. symmetry. exact (A7 Hm).
Qed.

Lemma keepsFrame_bind mode (m k : M unit) :
  keepsFrame mode m -> keepsFrame mode k -> keepsFrame mode (m ;; k).
Proof.
  intros Hm Hk c. destruct (Hm c) as (c1 & E1 & F1).
  destruct (Hk c1) as (c2 & E2 & F2).
  exists c2. split.
  - unfold bind. rewrite E1. exact E2.
  - exact (sameFrame_trans mode c c1 c2 F1 F2).
Qed.

Lemma keepsFrame_pathOnly mode (m : M unit) : pathOnly m -> keepsFrame mode m.
Proof.
  intros Hm c. destruct (Hm c) as [p Hp]. exists (with_path p c).
  split; [exact Hp|]. destruct c. unfold sameFrame. repeat split.
Qed.

Lemma keepsFrame_clearRect mode bw bh px py w h :
  keepsFrame mode (clearRect bw bh px py w h).
Proof.
  intros c. unfold clearRect, modify.
  destruct (covers _ _ _ _ _ _ _); eexists; (split; [reflexivity|]);
    destruct c; unfold sameFrame; repeat split.
Qed.

Lemma keepsFrame_export_fill px py w h :
  keepsFrame true (set_fillStyle "#ffffff" ;; fillRect px py w h).
Proof. frame_primitive. Qed.

Lemma keepsFrame_ret mode : keepsFrame mode (ret tt).
Proof. intros c. exists c. split; [reflexivity | apply sameFrame_refl]. Qed.

Lemma keepsFrame_set_strokeStyle mode v : keepsFrame mode (set_strokeStyle v).
Proof.
  intros c. destruct c as [[? ? ? ? ? ? ?] ? ? ? ?].
  eexists; split; [reflexivity | unfold sameFrame; repeat split].
Qed.

Lemma keepsFrame_set_lineWidth mode v : keepsFrame mode (set_lineWidth v).
Proof.
  intros c. destruct c as [[? ? ? ? ? ? ?] ? ? ? ?].
  eexists; split; [reflexivity | unfold sameFrame; repeat split].
Qed.

Lemma keepsFrame_beginPath mode : keepsFrame mode beginPath.
Proof.
  intros c. destruct c as [[? ? ? ? ? ? ?] ? ? ? ?].
  eexists; split; [reflexivity | unfold sameFrame; repeat split].
Qed.

Lemma keepsFrame_stroke mode : keepsFrame mode stroke.
Proof.
  intros c. destruct c as [[? ? ? ? ? ? ?] ? ? ? ?].
  eexists; split; [reflexivity | unfold sameFrame; repeat split].
Qed.

(** The first half of the pass always returns, and changes nothing the
    pass could tell (the fill style only in export mode). *)
Lemma drawGrid_keepsFrame mode st canvas : keepsFrame mode (drawGrid mode st canvas).
Proof.
  unfold drawGrid. cbv zeta.
  apply keepsFrame_bind; [apply keepsFrame_clearRect|].
  apply keepsFrame_bind.
  { destruct mode; [apply keepsFrame_export_fill | apply keepsFrame_ret]. }
  apply keepsFrame_bind; [apply keepsFrame_set_strokeStyle|].
  apply keepsFrame_bind; [apply keepsFrame_set_lineWidth|].
  apply keepsFrame_bind; [apply keepsFrame_beginPath|].
  apply keepsFrame_bind.
  { apply keepsFrame_pathOnly, forEach_pathOnly. intros gx. apply gridColumn_pathOnly. }
  apply keepsFrame_bind.
  { apply keepsFrame_pathOnly, forEach_pathOnly. intros gy. apply gridRow_pathOnly. }
  apply keepsFrame_stroke.
Qed.

Lemma drawTable_frame (t : Types.Table) (c c' : Context) :
  drawTable t c = Returned tt c' ->
  stack c' = stack c /\ hasRoundRect c' = hasRoundRect c.
Proof.
  destruct t as [tid pid idx ty s tx ty' cb ca].
  destruct c as [[fs ss lw fnt ta tb T] k p b rr].
  intros H. destruct s, rr; canvas_eval in H;
    first [discriminate H | injection H as <-; split; reflexivity].
Qed.

Lemma forEach_drawTable_frame (l : list Types.Table) :
  forall c c', forEach drawTable l c = Returned tt c' ->
               stack c' = stack c /\ hasRoundRect c' = hasRoundRect c.
Proof.
  induction l as [|t l IH]; intros c c' H; cbn [forEach] in H.
  - injection H as <-. split; reflexivity.
  - unfold bind in H. destruct (drawTable t c) as [[] c1|] eqn:E; [|discriminate H].
    destruct (drawTable_frame t c c1 E) as [S1 R1].
    destruct (IH c1 c' H) as [S2 R2]. split; congruence.
Qed.

(** The second half of the pass, when it returns, has put back the drawing
    state and the save stack it found. *)
Lemma drawTables_frame tables st (c c' : Context) :
  drawTables tables st c = Returned tt c' ->
  state c' = state c /\ stack c' = stack c /\ hasRoundRect c' = hasRoundRect c.
Proof.
  unfold drawTables. intros H.
  destruct c as [s k p b rr].
  cbv [bind save translate ctx_scale set_transform modify with_state with_stack
       state stack path bitmap hasRoundRect] in H.
  match type of H with
  | context [forEach drawTable tables ?X] =>
      destruct (forEach drawTable tables X) as [[] c3|] eqn:E; [|discriminate H];
      destruct (forEach_drawTable_frame tables X c3 E) as [S3 R3]
  end.
  cbn [stack hasRoundRect] in S3, R3.
  destruct c3 as [s3 k3 p3 b3 rr3]. cbn [stack hasRoundRect] in S3, R3. subst k3 rr3.
  cbv [restore modify stack with_stack] in H. injection H as <-.
  repeat split.
Qed.

Lemma draw_body_frame mode tables st canvas (c c' : Context) :
  draw_body mode tables st canvas c = Returned tt c' -> sameFrame mode c c'.
Proof.
  rewrite draw_body_split. unfold bind.
  destruct (drawGrid_keepsFrame mode st canvas c) as (g & Eg & Fg).
  rewrite Eg. intros H.
  destruct (drawTables_frame tables st g c' H) as (S1 & S2 & S3).
  apply (sameFrame_trans mode c g c' Fg).
  unfold sameFrame. rewrite S1, S2, S3. repeat split.
Qed.

Lemma clearRect_clearsAll canvas (c : Context) :
  clearsAll canvas c ->
  clearRect (width canvas) (height canvas) 0 0 (width canvas) (height canvas) c
  = Returned tt (with_bitmap [] c).
Proof.
  unfold clearsAll, clearRect, modify. intros H. cbv zeta. now rewrite H.
Qed.

(** Two contexts the pass cannot tell apart give the same first half, when
    [clearRect] wipes the bitmap. *)
Lemma drawGrid_ext mode st canvas (c c' : Context) :
  sameFrame mode c c' -> clearsAll canvas c ->
  drawGrid mode st canvas c' = drawGrid mode st canvas c.
Proof.
  intros F Hc.
  assert (Hc' : clearsAll canvas c').
  { unfold clearsAll in *. destruct F as (_ & _ & -> & _). exact Hc. }
  unfold drawGrid. cbv zeta. unfold bind at 1. symmetry. unfold bind at 1.
  rewrite (clearRect_clearsAll canvas c Hc), (clearRect_clearsAll canvas c' Hc').
  destruct c as [[fs ss lw fnt ta tb T] k p b rr].
  destruct c' as [[fs' ss' lw' fnt' ta' tb' T'] k' p' b' rr'].
  unfold sameFrame in F. cbn [stack hasRoundRect state transform font textAlign
                              textBaseline fillStyle] in F.
  destruct F as (-> & -> & -> & -> & -> & -> & Hfs).
  destruct mode.
  - canvas_eval. reflexivity.
  - rewrite (Hfs eq_refl). canvas_eval. reflexivity.
Qed.

Lemma draw_body_ext mode tables st canvas (c c' : Context) :
  sameFrame mode c c' -> clearsAll canvas c ->
  draw_body mode tables st canvas c' = draw_body mode tables st canvas c.
Proof.
  intros F Hc. rewrite !draw_body_split. unfold bind.
  now rewrite (drawGrid_ext mode st canvas c c' F Hc).
Qed.

(** A pass that returned is repeated without any change to the context:
    same bitmap, same path, same drawing state, same stack. *)
Lemma draw_body_idempotent mode tables st canvas (c c' : Context) :
  clearsAll canvas c ->
  draw_body mode tables st canvas c = Returned tt c' ->
  draw_body mode tables st canvas c' = Returned tt c'.
Proof.
  intros Hc H.
  rewrite (draw_body_ext mode tables st canvas c c'
             (draw_body_frame mode tables st canvas c c' H) Hc).
  exact H.
Qed.

Lemma drawTable_returns (t : Types.Table) (c : Context) :
  hasRoundRect c = true \/ flagged t = false ->
  exists c', drawTable t c = Returned tt c'.
Proof.
  destruct t as [tid pid idx ty s tx ty' cb ca].
  destruct c as [[fs ss lw fnt ta tb T] k p b rr].
  unfold flagged. cbn [hasRoundRect Types.status].
  intros H. destruct s, rr; canvas_eval; try (eexists; reflexivity).
  destruct H as [H | H]; discriminate H.
Qed.

Lemma forEach_drawTable_returns (l : list Types.Table) :
  forall c, hasRoundRect c = true \/ existsb flagged l = false ->
            exists c', forEach drawTable l c = Returned tt c'.
Proof.
  induction l as [|t l IH]; intros c H; cbn [forEach].
  - exists c. reflexivity.
  - assert (Ht : hasRoundRect c = true \/ flagged t = false).
    { destruct H as [H | H]; [now left | right].
      cbn [existsb] in H. now apply orb_false_iff in H. }
    destruct (drawTable_returns t c Ht) as [c1 E1].
    unfold bind. rewrite E1.
    destruct (drawTable_frame t c c1 E1) as [_ R1].
    apply IH. destruct H as [H | H]; [left; congruence | right].
    cbn [existsb] in H. now apply orb_false_iff in H.
Qed.

(** The pass returns on every context that has [roundRect], and on every
    context when no table is flagged with an issue. *)
Lemma draw_body_returns mode tables st canvas (c : Context) :
  hasRoundRect c = true \/ existsb flagged tables = false ->
  exists c', draw_body mode tables st canvas c = Returned tt c'.
Proof.
  intros H. rewrite draw_body_split. unfold bind.
  destruct (drawGrid_keepsFrame mode st canvas c) as (g & Eg & Fg).
  rewrite Eg. destruct Fg as (_ & Rg & _).
  unfold drawTables.
  destruct g as [s k p b rr]. cbn [hasRoundRect] in Rg.
  cbv [bind save translate ctx_scale set_transform modify with_state with_stack
       state stack path bitmap hasRoundRect].
  match goal with
  | |- context [forEach drawTable tables ?X] =>
      destruct (forEach_drawTable_returns tables X) as [c3 E3];
      [cbn [hasRoundRect]; destruct H as [H | H]; [left; congruence | now right]
      | rewrite E3]
  end.
  eexists. reflexivity.
Qed.

Lemma identity_clearsAll canvas (c : Context) :
  transform (state c) = identity ->
  0 <= width canvas -> 0 <= height canvas ->
  clearsAll canvas c.
Proof.
  intros HT Hw Hh. unfold clearsAll, covers. rewrite HT.
  unfold apply_x, apply_y, identity. cbn [m_a m_d m_e m_f].
  rewrite !andb_true_iff, !Qle_bool_iff.
  repeat split.
  - apply Q.min_le_iff. left. lra.
  - apply Q.max_le_iff. right. lra.
  - apply Q.min_le_iff. left. lra.
  - apply Q.max_le_iff. right. lra.
Qed.

(** On a canvas whose [clearRect] wipes the bitmap, a pass that completed
    normally is repeated without any change to the surface. *)
Lemma draw_idempotent_when_completed mode tables st canvas (c : Context) r :
  context2d canvas = Some c ->
  clearsAll canvas c ->
  draw mode tables st (Some canvas) = (Normal, r) ->
  draw mode tables st r = (Normal, r).
Proof.
  intros Hctx Hc H. unfold draw in H. rewrite Hctx in H.
  destruct (draw_body mode tables st canvas c) as [[] c1|err c1] eqn:E;
    [|discriminate H].
  injection H as <-.
  unfold draw. cbn [context2d with_context].
  change (draw_body mode tables st (with_context canvas c1) c1)
    with (draw_body mode tables st canvas c1).
  rewrite (draw_body_idempotent mode tables st canvas c c1 Hc E).
  reflexivity.
Qed.

(** C8.  The render pass is idempotent.  On the surface as the component
    finds it when a pass begins, a pass that completed is repeated, with the
    same tables, the same scale and offset and the same mode, without any
    change: the second pass completes too and leaves the canvas exactly as
    the first left it (bitmap, path, drawing state, save stack), again as a
    pass finds it, so any number of further passes change nothing either.
    The pass is a function of its inputs.  A second pass is made only after
    a first that returned: an exception leaves [draw] and its caller. *)
Theorem render_idempotent :
  forall mode tables st (canvasRef r : option Canvas),
    surfaceAtRest canvasRef ->
    draw mode tables st canvasRef = (Normal, r) ->
    draw mode tables st r = (Normal, r) /\ surfaceAtRest r.
Proof.
  intros mode tables st canvasRef r Hrest H.
  destruct canvasRef as [canvas|].
  - cbn [surfaceAtRest] in Hrest.
    destruct (context2d canvas) as [c|] eqn:Hctx.
    + destruct Hrest as (HT & Hw & Hh).
      split.
      * apply (draw_idempotent_when_completed mode tables st canvas c r Hctx);
          [now apply identity_clearsAll | exact H].
      * unfold draw in H. rewrite Hctx in H.
        destruct (draw_body mode tables st canvas c) as [[] c1|err c1] eqn:E;
          [|discriminate H].
        injection H as <-.
        destruct (draw_body_frame mode tables st canvas c c1 E)
          as (_ & _ & T1 & _).
        cbn [surfaceAtRest with_context context2d width height].
        repeat split; [congruence | exact Hw | exact Hh].
    + unfold draw in H. rewrite Hctx in H. injection H as <-.
      split; [unfold draw; now rewrite Hctx|].
      cbn [surfaceAtRest]. now rewrite Hctx.
  - cbn [draw] in H. injection H as <-. split; [reflexivity | exact I].
Qed.

Lemma render_idempotent_witness :
  let tables := [sampleTable "t1" 0 0 Types.Pending;
                 sampleTable "t2" 1 0 Types.Completed;
                 sampleTable "t3" 0 1 Types.Issue] in
  let canvas0 := Some (sampleCanvas (Some (freshContext true))) in
  let first := draw true tables initialState canvas0 in
  draw true tables initialState (snd first) = (Normal, snd first) /\
  surfaceAtRest (snd first).
Proof.
  cbv zeta.
  destruct (draw true _ initialState
                 (Some (sampleCanvas (Some (freshContext true)))))
    as [done r] eqn:E.
  assert (Hdone : done = Normal).
  { apply (f_equal fst) in E. vm_compute in E. now rewrite <- E. }
  subst done. cbn [snd].
  apply (render_idempotent true _ initialState
           (Some (sampleCanvas (Some (freshContext true)))) r); [|exact E].
  cbn [surfaceAtRest sampleCanvas context2d].
  repeat split; discriminate.
Defined.

End RenderFacts.

(** * Further properties of the component *)

(** ** The view transform in reachable states *)

Lemma scale_positive_of_policy (st : State) : scaleInPolicy st -> 0 < scale st.
Proof. intros [Hlo _]. lra. Qed.

Lemma reachable_in_policy hypot tables canvasRef (evs : list Event) :
  scaleInPolicy (fst (run hypot tables canvasRef initialState evs)).
Proof.
  apply run_in_policy. split; discriminate.
Qed.


(** ** Panning *)

Lemma dragging_moves hypot tables canvasRef st0 down (moves : list MouseEvent) :
  forall st, dragging st0 down st ->
             dragging st0 down
                      (fst (run hypot tables canvasRef st (map MouseMove moves))).
Proof.
  induction moves as [|m moves IH]; intros st Hd; [exact Hd|].
  cbn [map run step].
  specialize (IH (handleMouseMove st m)).
  destruct (run hypot tables canvasRef (handleMouseMove st m) (map MouseMove moves))
    as [st2 calls2]. cbn [fst] in *.
  apply IH. destruct Hd as (Hdrag & Hscale & Hstart).
  unfold handleMouseMove. rewrite Hdrag. repeat split; assumption.
Qed.

(** X2.  A drag carries the plan along with the pointer: after a press and
    any moves, the point of the plan under the pointer at the last move is
    the point that was under it at the press, and the scale is the one at
    the press. *)
Theorem drag_keeps_point_under_pointer :
  forall hypot tables canvasRef st (down : MouseEvent)
         (moves : list MouseEvent) (m : MouseEvent),
    let st' := fst (run hypot tables canvasRef st
                        (MouseDown down :: map MouseMove (moves ++ [m]))) in
    toLogicalX st' (clientX m) == toLogicalX st (clientX down) /\
    toLogicalY st' (clientY m) == toLogicalY st (clientY down) /\
    scale st' = scale st.
Proof.
  intros hypot tables canvasRef st down moves m. cbv zeta.
  cbn [run step]. rewrite map_app. cbn [map].
  destruct (run hypot tables canvasRef (handleMouseDown st down)
                (map MouseMove moves ++ [MouseMove m])) as [st2 calls2] eqn:E.
  cbn [fst].
  rewrite run_app in E. cbn [run step fst snd] in E.
  injection E as <- _.
  assert (Hd : dragging st down
                 (fst (run hypot tables canvasRef (handleMouseDown st down)
                           (map MouseMove moves)))).
  { apply dragging_moves. repeat split. }
  destruct Hd as (Hdrag & Hscale & Hstart).
  unfold handleMouseMove. rewrite Hdrag.
  unfold toLogicalX, toLogicalY.
  cbn [offset scale setOffset x y]. rewrite Hstart, Hscale. cbn [x y].
  repeat split.
  - apply Qmult_comp; [ring | reflexivity].
  - apply Qmult_comp; [ring | reflexivity].
Qed.

(** X3.  One finger pans exactly as the mouse does: a touch start with one
    contact followed by one-contact moves leaves the state that a press and
    the same moves of the mouse leave. *)
Theorem one_finger_pans_like_mouse :
  forall hypot tables canvasRef st (t : Touch) (moves : list Touch),
    fst (run hypot tables canvasRef st
             (TouchStart {| touches := [t] |} :: map asTouchMove moves))
    = fst (run hypot tables canvasRef st (MouseDown t :: map MouseMove moves)).
Proof.
  intros hypot tables canvasRef st t moves. cbn [run step].
  change (handleTouchStart hypot st {| touches := [t] |})
    with (handleMouseDown st t).
  generalize (handleMouseDown st t). clear st.
  induction moves as [|m moves IH]; intros st; [reflexivity|].
  cbn [map run step asTouchMove].
  change (handleTouchMove hypot st {| touches := [m] |})
    with (handleMouseMove st m).
  specialize (IH (handleMouseMove st m)).
  destruct (run hypot tables canvasRef (handleMouseMove st m) (map asTouchMove moves)).
  destruct (run hypot tables canvasRef (handleMouseMove st m) (map MouseMove moves)).
  exact IH.
Qed.

Lemma idle_moves hypot tables canvasRef (evs : list Event) :
  forall st, isDragging st = false ->
             run hypot tables canvasRef st (filter isMoveEvent evs) = (st, []).
Proof.
  induction evs as [|ev evs IH]; intros st Hidle; [reflexivity|].
  destruct ev; cbn [filter isMoveEvent]; try (apply IH; exact Hidle).
  - cbn [run step]. unfold handleMouseMove. rewrite Hidle.
    now rewrite (IH st Hidle).
  - destruct (touches e) as [|t0 [|t1 rest]] eqn:Et; try (apply IH; exact Hidle).
    cbn [run step]. unfold handleTouchMove. rewrite Et, Hidle.
    now rewrite (IH st Hidle).
Qed.

(** X4.  After a release nothing pans: once the mouse button is released,
    the pointer leaves, or a touch ends, any mouse moves and one-finger
    touch moves leave the whole state as the release left it, and call
    nothing. *)
Theorem moves_after_release_do_nothing :
  forall hypot tables canvasRef st (evs : list Event),
    run hypot tables canvasRef st (MouseUp :: filter isMoveEvent evs)
    = (handleMouseUp st, []) /\
    run hypot tables canvasRef st (MouseLeave :: filter isMoveEvent evs)
    = (handleMouseUp st, []) /\
    run hypot tables canvasRef st (TouchEnd :: filter isMoveEvent evs)
    = (handleTouchEnd st, []).
Proof.
  intros hypot tables canvasRef st evs.
  repeat split; cbn [run step]; now rewrite idle_moves.
Qed.

(** ** Zooming *)

Lemma clamp_monotone (s d : number) :
  0.2 <= s -> s <= 5 ->
  (0 <= d -> s <= Math_min (Math_max (s + d) 0.2) 5) /\
  (d <= 0 -> Math_min (Math_max (s + d) 0.2) 5 <= s).
Proof.
  intros Hlo Hhi. unfold Math_min, Math_max. split; intros Hd.
  - apply Q.min_glb; [|exact Hhi].
    apply Qle_trans with (s + d); [lra | apply Q.le_max_l].
  - apply Qle_trans with (Qmax (s + d) 0.2); [apply Q.le_min_l|].
    apply Q.max_lub; lra.
Qed.

(** X5.  The wheel zooms in the direction it is turned: in a state whose
    scale is within the bounds, a wheel event with [deltaY <= 0] never
    lowers the scale and one with [deltaY >= 0] never raises it. *)
Theorem wheel_direction :
  forall st (e : WheelEvent),
    scaleInPolicy st ->
    (deltaY e <= 0 -> scale st <= scale (handleWheel st e)) /\
    (0 <= deltaY e -> scale (handleWheel st e) <= scale st).
Proof.
  intros st e [Hlo Hhi]. unfold handleWheel. cbn [scale setScale].
  split; intros Hd.
  - apply (clamp_monotone (scale st) (- deltaY e * 0.001) Hlo Hhi). lra.
  - apply (clamp_monotone (scale st) (- deltaY e * 0.001) Hlo Hhi). lra.
Qed.

Lemma wheel_direction_witness :
  scale initialState <= scale (handleWheel initialState {| deltaY := -100 |}).
Proof.
  refine (proj1 (wheel_direction initialState {| deltaY := -100 |} _) _).
  - split; discriminate.
  - discriminate.
Defined.

(** X6.  A pinch zooms in the direction the fingers move: with a recorded
    distance and a scale within the bounds, two fingers that [Math.hypot]
    measures at least as far apart as recorded never lower the scale, and
    fingers measured at most as far apart never raise it; either way the
    measured distance becomes the recorded one. *)
Theorem pinch_direction :
  forall hypot st (t0 t1 : Touch) (last : number),
    scaleInPolicy st ->
    lastTouchDistance st = Some last ->
    truthy last = true ->
    let dist := hypot (clientX t0 - clientX t1) (clientY t0 - clientY t1) in
    let st' := handleTouchMove hypot st {| touches := [t0; t1] |} in
    (last <= dist -> scale st <= scale st') /\
    (dist <= last -> scale st' <= scale st) /\
    lastTouchDistance st' = Some dist.
Proof.
  intros hypot st t0 t1 last [Hlo Hhi] Hlast Htruthy. cbv zeta.
  unfold handleTouchMove. cbn [touches]. rewrite Hlast, Htruthy.
  cbn [scale lastTouchDistance setScale setLastTouchDistance].
  repeat split; intros Hd.
  - apply (clamp_monotone (scale st) _ Hlo Hhi). lra.
  - apply (clamp_monotone (scale st) _ Hlo Hhi). lra.
Qed.

Lemma pinch_direction_witness :
  let st := handleTouchStart hypot_floor initialState
              {| touches := [ {| clientX := 0; clientY := 0 |};
                              {| clientX := 100; clientY := 0 |} ] |} in
  scale st <= scale (handleTouchMove hypot_floor st
                       {| touches := [ {| clientX := 0; clientY := 0 |};
                                       {| clientX := 130; clientY := 0 |} ] |}).
Proof.
  cbv zeta.
  refine (proj1 (pinch_direction hypot_floor _ {| clientX := 0; clientY := 0 |}
                   {| clientX := 130; clientY := 0 |} 100 _ _ _) _).
  - split; discriminate.
  - vm_compute. reflexivity.
  - reflexivity.
  - vm_compute. discriminate.
Defined.

(** X7.  When a pinch cannot zoom.  A two-finger move changes nothing when
    no distance is recorded (no two-finger touch start since the last touch
    end) or when the recorded distance is zero (both fingers landed on one
    point); touch starts and moves with no contact or with three and more
    contacts change nothing either. *)
Theorem pinch_without_reference_is_ignored :
  forall hypot st,
    (forall t0 t1 : Touch,
        lastTouchDistance st = None ->
        handleTouchMove hypot st {| touches := [t0; t1] |} = st) /\
    (forall (t0 t1 : Touch) (d : number),
        lastTouchDistance st = Some d -> d == 0 ->
        handleTouchMove hypot st {| touches := [t0; t1] |} = st) /\
    (forall (a b c d : Touch),
        hypot (clientX a - clientX b) (clientY a - clientY b) == 0 ->
        scale (handleTouchMove hypot
                 (handleTouchStart hypot st {| touches := [a; b] |})
                 {| touches := [c; d] |}) = scale st) /\
    (forall (t0 t1 t2 : Touch) (rest : list Touch),
        handleTouchStart hypot st {| touches := t0 :: t1 :: t2 :: rest |} = st /\
        handleTouchMove hypot st {| touches := t0 :: t1 :: t2 :: rest |} = st /\
        handleTouchStart hypot st {| touches := [] |} = st /\
        handleTouchMove hypot st {| touches := [] |} = st).
Proof.
  intros hypot st. repeat split.
  - intros t0 t1 Hnone. unfold handleTouchMove. cbn [touches]. now rewrite Hnone.
  - intros t0 t1 d Hsome Hd. unfold handleTouchMove. cbn [touches].
    rewrite Hsome. unfold truthy.
    now rewrite (proj2 (Qeq_bool_iff d 0) Hd).
  - intros a b c d H0. unfold handleTouchStart, handleTouchMove.
    cbn [touches lastTouchDistance setLastTouchDistance setIsDragging].
    unfold truthy. now rewrite (proj2 (Qeq_bool_iff _ 0) H0).
Qed.

Lemma pinch_without_reference_is_ignored_witness :
  handleTouchMove hypot_floor initialState
    {| touches := [ {| clientX := 0; clientY := 0 |};
                    {| clientX := 100; clientY := 0 |} ] |} = initialState.
Proof.
  exact (proj1 (pinch_without_reference_is_ignored hypot_floor initialState)
               {| clientX := 0; clientY := 0 |} {| clientX := 100; clientY := 0 |}
               eq_refl).
Defined.

Lemma min_step (a : Q) : Qmin (Qmin a 5 + 0.2) 5 == Qmin (a + 0.2) 5.
Proof.
  destruct (Q.min_spec a 5) as [[H1 E1] | [H1 E1]]; rewrite E1;
    destruct (Q.min_spec (a + 0.2) 5) as [[H2 E2] | [H2 E2]]; rewrite E2;
    try reflexivity;
    match goal with
    | |- Qmin ?u ?v == _ => destruct (Q.min_spec u v) as [[H3 E3] | [H3 E3]]
    end; rewrite E3; lra.
Qed.

Lemma max_step (a : Q) : Qmax (Qmax a 0.2 - 0.2) 0.2 == Qmax (a - 0.2) 0.2.
Proof.
  destruct (Q.max_spec a 0.2) as [[H1 E1] | [H1 E1]]; rewrite E1;
    destruct (Q.max_spec (a - 0.2) 0.2) as [[H2 E2] | [H2 E2]]; rewrite E2;
    try reflexivity;
    match goal with
    | |- Qmax ?u ?v == _ => destruct (Q.max_spec u v) as [[H3 E3] | [H3 E3]]
    end; rewrite E3; lra.
Qed.

Lemma zoomIn_presses (n : nat) (st : State) :
  scale st <= 5 ->
  scale (presses n zoomIn st) == Qmin (scale st + 0.2 * inject_Z (Z.of_nat n)) 5.
Proof.
  intros Hhi. induction n as [|n IH].
  - change (scale (presses 0 zoomIn st)) with (scale st).
    change (inject_Z (Z.of_nat 0)) with 0.
    rewrite Q.min_l; lra.
  - change (scale (presses (S n) zoomIn st))
      with (Qmin (scale (presses n zoomIn st) + 0.2) 5).
    rewrite IH, min_step, Nat2Z.inj_succ. unfold Z.succ.
    rewrite inject_Z_plus. change (inject_Z 1) with 1.
    apply Q.min_compat; [ring | reflexivity].
Qed.

Lemma zoomOut_presses (n : nat) (st : State) :
  0.2 <= scale st ->
  scale (presses n zoomOut st) == Qmax (scale st - 0.2 * inject_Z (Z.of_nat n)) 0.2.
Proof.
  intros Hlo. induction n as [|n IH].
  - change (scale (presses 0 zoomOut st)) with (scale st).
    change (inject_Z (Z.of_nat 0)) with 0.
    rewrite Q.max_l; lra.
  - change (scale (presses (S n) zoomOut st))
      with (Qmax (scale (presses n zoomOut st) - 0.2) 0.2).
    rewrite IH, max_step, Nat2Z.inj_succ. unfold Z.succ.
    rewrite inject_Z_plus. change (inject_Z 1) with 1.
    apply Q.max_compat; [ring | reflexivity].
Qed.

(** X8.  The zoom buttons.  From a scale within the bounds, a press of
    zoom-in never lowers the scale and raises it when it was below 5; a
    press of zoom-out never raises it and lowers it when it was above 0.2;
    25 presses of zoom-in, or more, end at 5, and as many of zoom-out at
    0.2, whatever the scale was. *)
Theorem zoom_buttons :
  forall st, scaleInPolicy st ->
    scale st <= scale (zoomIn st) /\
    scale (zoomOut st) <= scale st /\
    (scale st < 5 -> scale st < scale (zoomIn st)) /\
    (0.2 < scale st -> scale (zoomOut st) < scale st) /\
    (forall n : nat, (25 <= n)%nat ->
        scale (presses n zoomIn st) == 5 /\
        scale (presses n zoomOut st) == 0.2).
Proof.
  intros st [Hlo Hhi].
  assert (Ein : scale (zoomIn st) = Qmin (scale st + 0.2) 5) by reflexivity.
  assert (Eout : scale (zoomOut st) = Qmax (scale st - 0.2) 0.2) by reflexivity.
  rewrite Ein, Eout.
  destruct (Q.min_spec (scale st + 0.2) 5) as [[H1 E1] | [H1 E1]];
    destruct (Q.max_spec (scale st - 0.2) 0.2) as [[H2 E2] | [H2 E2]];
    rewrite E1, E2.
  1-4: split; [lra|]; split; [lra|]; split; [intros; lra|];
    split; [intros; lra|].
  1-4: intros n Hn;
    assert (Hq : 25 <= inject_Z (Z.of_nat n))
      by (change 25 with (inject_Z 25); rewrite <- Zle_Qle; lia);
    rewrite (zoomIn_presses n st Hhi), (zoomOut_presses n st Hlo);
    split; [apply Q.min_r; lra | apply Q.max_r; lra].
Qed.

Lemma zoom_buttons_witness : scale (presses 25 zoomIn initialState) == 5.
Proof.
  refine (proj1 (proj2 (proj2 (proj2 (proj2 (zoom_buttons initialState _))))
                       25%nat (le_n 25))).
  split; discriminate.
Defined.

(** ** The rectangle of a table and the hit test *)

Lemma screen_le_iff (s o a c : Q) :
  0 < s -> (s * a + o <= s * c + o <-> a <= c).
Proof.
  intros Hs. rewrite <- (Qmult_le_l a c s Hs). split; intros H; lra.
Qed.

Lemma body_clicked_iff (st : State) (canvas : Canvas2D.Canvas)
      (e : MouseEvent) (t : Types.Table) :
  0 < scale st ->
  let r := rectFor (Types.x t) (Types.y t) in
  let sx := clientX e - Canvas2D.rect_left canvas in
  let sy := clientY e - Canvas2D.rect_top canvas in
  (toScreenX st (rect_x r) <= sx /\
   sx <= toScreenX st (rect_x r + rect_width r) /\
   toScreenY st (rect_y r) <= sy /\
   sy <= toScreenY st (rect_y r + rect_height r))
  <-> underClick (clickX canvas st e) (clickY canvas st e) t = true.
Proof.
  intros Hs r sx sy.
  assert (Hne : ~ scale st == 0) by lra.
  rewrite underClick_iff, !toScreenX_eq, !toScreenY_eq.
  assert (Ex : sx == scale st * clickX canvas st e + x (offset st))
    by (unfold clickX, sx; field; exact Hne).
  assert (Ey : sy == scale st * clickY canvas st e + y (offset st))
    by (unfold clickY, sy; field; exact Hne).
  rewrite Ex, Ey, !screen_le_iff by exact Hs.
  reflexivity.
Qed.

Section DisplayList.

Import Canvas2D.
Local Open Scope canvas_scope.

Lemma drawTable_extends (t : Types.Table) (c c' : Context) :
  drawTable t c = Returned tt c' ->
  transform (state c') = transform (state c) /\
  exists ps,
    bitmap c' = bitmap c ++ ps /\
    List.length ps = paintsOf t /\
    In (Filled (fillColor (Types.status t))
               [(transform (state c),
                 bodyShape (hasRoundRect c) (rectFor (Types.x t) (Types.y t)))])
       ps.
Proof.
  destruct t as [tid pid idx ty s tx ty' cb ca].
  destruct c as [[fs ss lw fnt ta tb T] k p b rr].
  intros H. unfold paintsOf, flagged. cbn [Types.status].
  destruct s, rr; canvas_eval in H;
    first [discriminate H | injection H as <-];
    (split; [reflexivity|]); cbn [bitmap]; rewrite <- !app_assoc;
    eexists; (split; [reflexivity|]);
    (split; [reflexivity | cbn [app In]; find_painted]).
Qed.

Lemma forEach_drawTable_paints (l : list Types.Table) :
  forall c c', forEach drawTable l c = Returned tt c' ->
    exists ps,
      bitmap c' = bitmap c ++ ps /\
      List.length ps = list_sum (map paintsOf l) /\
      forall t, In t l ->
        In (Filled (fillColor (Types.status t))
                   [(transform (state c),
                     bodyShape (hasRoundRect c)
                               (rectFor (Types.x t) (Types.y t)))]) ps.
Proof.
  induction l as [|t l IH]; intros c c' H; cbn [forEach] in H.
  - injection H as <-. exists []. rewrite app_nil_r. repeat split.
    intros t [].
  - unfold bind in H.
    destruct (drawTable t c) as [[] c1|] eqn:E; [|discriminate H].
    destruct (drawTable_extends t c c1 E) as (HT & ps1 & Hb1 & Hn1 & Hin1).
    destruct (drawTable_frame t c c1 E) as [_ HR].
    destruct (IH c1 c' H) as (ps2 & Hb2 & Hn2 & Hin2).
    exists (ps1 ++ ps2). split; [|split].
    + rewrite Hb2, Hb1. now rewrite app_assoc.
    + rewrite length_app, Hn1, Hn2. reflexivity.
    + intros u [<- | Hu]; apply in_or_app; [left; exact Hin1 | right].
      rewrite <- HT, <- HR. now apply Hin2.
Qed.

Lemma drawGrid_bitmap mode st canvas (c : Context) :
  clearsAll canvas c ->
  exists g gridPath,
    drawGrid mode st canvas c = Returned tt g /\
    bitmap g = background mode (transform (state c)) canvas
               ++ [Stroked (gridColor mode) 1 (transform (state c)) gridPath].
Proof.
  intros Hc. unfold drawGrid. cbv zeta. unfold bind at 1.
  rewrite (clearRect_clearsAll canvas c Hc).
  destruct c as [[fs ss lw fnt ta tb T] k p b rr].
  destruct mode;
    cbv [bind set_fillStyle fillRect paint modify ret set_strokeStyle
         set_lineWidth beginPath with_state with_path with_bitmap state stack
         path bitmap hasRoundRect fillStyle strokeStyle lineWidth font
         textAlign textBaseline transform];
    match goal with
    | |- context [forEach (gridColumn canvas) ?l ?X] =>
        destruct (forEach_pathOnly (gridColumn canvas) l
                    (gridColumn_pathOnly canvas) X) as [p1 E1]; rewrite E1
    end;
    match goal with
    | |- context [forEach (gridRow canvas) ?l ?X] =>
        destruct (forEach_pathOnly (gridRow canvas) l
                    (gridRow_pathOnly canvas) X) as [p2 E2]; rewrite E2
    end;
    do 2 eexists; (split; [reflexivity|]); reflexivity.
Qed.

(** X10.  What a completed pass leaves on the bitmap.  On a context at the
    identity matrix whose [clearRect] wipes the canvas, a pass that returns
    leaves: the white background when exporting and nothing otherwise, then
    one stroke for the grid, then the paints of the tables, five for a table
    and six for one flagged with an issue; among them, for every table of
    the list, the fill of its body: the rectangle of its grid cell under the
    view matrix of the state. *)
Theorem draw_display_list :
  forall mode tables st canvas (c c' : Context),
    transform (state c) = identity ->
    clearsAll canvas c ->
    draw_body mode tables st canvas c = Returned tt c' ->
    exists gridPath ps,
      bitmap c' = background mode identity canvas
                  ++ [Stroked (gridColor mode) 1 identity gridPath] ++ ps /\
      List.length ps = list_sum (map paintsOf tables) /\
      forall t, In t tables ->
        In (Filled (fillColor (Types.status t))
                   [(viewMatrix st,
                     bodyShape (hasRoundRect c)
                               (rectFor (Types.x t) (Types.y t)))]) ps.
Proof.
  intros mode tables st canvas c c' HT Hc H.
  rewrite draw_body_split in H. unfold bind in H.
  destruct (drawGrid_bitmap mode st canvas c Hc) as (g & gridPath & Eg & Hbg).
  destruct (drawGrid_keepsFrame mode st canvas c) as (g' & Eg' & Fg).
  rewrite Eg in Eg'. injection Eg' as <-.
  rewrite Eg in H. rewrite HT in Hbg.
  destruct Fg as (_ & Rg & Tg & _). rewrite HT in Tg.
  unfold drawTables in H.
  destruct g as [[fs ss lw fnt ta tb T] k p b rr].
  cbn [bitmap] in Hbg. cbn [hasRoundRect] in Rg. cbn [state transform] in Tg.
  subst T rr b.
  cbv [bind save translate ctx_scale set_transform modify with_state with_stack
       state stack path bitmap hasRoundRect fillStyle strokeStyle lineWidth
       font textAlign textBaseline transform] in H.
  match type of H with
  | context [forEach drawTable tables ?X] =>
      destruct (forEach drawTable tables X) as [[] c3|] eqn:E; [|discriminate H];
      destruct (forEach_drawTable_paints tables X c3 E) as (ps & Hb & Hn & Hin);
      destruct (forEach_drawTable_frame tables X c3 E) as [S3 _]
  end.
  cbn [bitmap state transform hasRoundRect stack] in Hb, Hin, S3.
  destruct c3 as [s3 k3 p3 b3 rr3]. cbn [bitmap stack] in Hb, S3. subst k3 b3.
  cbv [restore modify stack with_stack] in H. injection H as <-.
  exists gridPath, ps. cbn [bitmap]. split; [|split].
  - now rewrite <- app_assoc.
  - exact Hn.
  - exact Hin.
Qed.

Lemma draw_display_list_witness :
  exists c',
    draw_body true [sampleTable "t1" 0 0 Types.Pending] initialState
              (sampleCanvas None) (freshContext true) = Returned tt c' /\
    List.length (bitmap c') = 7%nat.
Proof.
  destruct (draw_body true [sampleTable "t1" 0 0 Types.Pending] initialState
                      (sampleCanvas None) (freshContext true))
    as [[] c'|err c'] eqn:E.
  - exists c'. split; [reflexivity|].
    destruct (draw_display_list true [sampleTable "t1" 0 0 Types.Pending]
                initialState (sampleCanvas None) (freshContext true) c'
                eq_refl eq_refl E) as (gridPath & ps & Hb & Hn & _).
    rewrite Hb. cbn [background app List.length]. rewrite Hn. reflexivity.
  - exfalso. vm_compute in E. discriminate E.
Defined.

(** X11.  On a context that has [roundRect], or with no table flagged with
    an issue, the render pass completes, and a second pass with the same
    tables, view and mode leaves the canvas exactly as the first did:
    bitmap, path, drawing state and save stack. *)
Theorem render_idempotent_when_supported :
  forall mode tables st canvas (c : Context),
    context2d canvas = Some c ->
    transform (state c) = identity ->
    0 <= width canvas -> 0 <= height canvas ->
    hasRoundRect c = true \/ existsb flagged tables = false ->
    exists r,
      draw mode tables st (Some canvas) = (Normal, r) /\
      draw mode tables st r = (Normal, r).
Proof.
  intros mode tables st canvas c Hctx HT Hw Hh Hok.
  destruct (draw_body_returns mode tables st canvas c Hok) as [c' E].
  exists (Some (with_context canvas c')).
  assert (Hfirst : draw mode tables st (Some canvas)
                   = (Normal, Some (with_context canvas c'))).
  { unfold draw. now rewrite Hctx, E. }
  split; [exact Hfirst|].
  apply (draw_idempotent_when_completed mode tables st canvas c _ Hctx);
    [|exact Hfirst].
  now apply identity_clearsAll.
Qed.

Lemma render_idempotent_when_supported_witness :
  exists r,
    draw false [sampleTable "t3" 0 1 Types.Issue] initialState
         (Some (sampleCanvas (Some (freshContext true)))) = (Normal, r) /\
    draw false [sampleTable "t3" 0 1 Types.Issue] initialState r = (Normal, r).
Proof.
  apply (render_idempotent_when_supported false _ initialState
           (sampleCanvas (Some (freshContext true))) (freshContext true)
           eq_refl eq_refl).
  - discriminate.
  - discriminate.
  - left. reflexivity.
Defined.

(** ** A context without [roundRect] *)

Lemma drawTable_keeps (t : Types.Table) (c : Context) :
  stack (contextOf (drawTable t c)) = stack c /\
  hasRoundRect (contextOf (drawTable t c)) = hasRoundRect c /\
  transform (state (contextOf (drawTable t c))) = transform (state c).
Proof.
  destruct t as [tid pid idx ty s tx ty' cb ca].
  destruct c as [[fs ss lw fnt ta tb T] k p b rr].
  destruct s, rr; canvas_eval; repeat split.
Qed.

Lemma drawTable_throws (t : Types.Table) (c : Context) :
  flagged t = true -> hasRoundRect c = false ->
  exists c', drawTable t c
             = Thrown "TypeError: ctx.roundRect is not a function" c'.
Proof.
  destruct t as [tid pid idx ty s tx ty' cb ca].
  destruct c as [[fs ss lw fnt ta tb T] k p b rr].
  unfold flagged. cbn [hasRoundRect Types.status].
  intros Hf Hr. subst rr. destruct s; try discriminate Hf.
  canvas_eval. eexists. reflexivity.
Qed.

Lemma forEach_drawTable_throws (l : list Types.Table) :
  forall c, hasRoundRect c = false -> existsb flagged l = true ->
            exists c',
              forEach drawTable l c
              = Thrown "TypeError: ctx.roundRect is not a function" c' /\
              stack c' = stack c /\
              transform (state c') = transform (state c).
Proof.
  induction l as [|t l IH]; intros c Hr Hf; [discriminate Hf|].
  cbn [existsb] in Hf. cbn [forEach]. unfold bind.
  destruct (drawTable_keeps t c) as (K1 & K2 & K3).
  destruct (flagged t) eqn:Ft.
  - destruct (drawTable_throws t c Ft Hr) as [c' E]. rewrite E in *.
    exists c'. cbn [contextOf] in K1, K3. repeat split; assumption.
  - destruct (drawTable_returns t c (or_intror Ft)) as [c1 E]. rewrite E in *.
    cbn [contextOf] in K1, K2, K3. cbn [orb] in Hf.
    destruct (IH c1 (eq_trans K2 Hr) Hf) as (c' & E' & S' & T').
    exists c'. repeat split; [exact E' | congruence | congruence].
Qed.

Lemma draw_body_throws mode tables st canvas (c : Context) :
  hasRoundRect c = false -> existsb flagged tables = true ->
  exists c',
    draw_body mode tables st canvas c
    = Thrown "TypeError: ctx.roundRect is not a function" c' /\
    List.length (stack c') = S (List.length (stack c)) /\
    transform (state c')
    = scale_by (scale st) (scale st)
        (translate_by (x (offset st)) (y (offset st)) (transform (state c))).
Proof.
  intros Hr Hf. rewrite draw_body_split. unfold bind at 1.
  destruct (drawGrid_keepsFrame mode st canvas c) as (g & Eg & Fg).
  rewrite Eg. destruct Fg as (Sg & Rg & Tg & _).
  unfold drawTables, bind, save, translate, ctx_scale, set_transform, modify.
  match goal with
  | |- context [forEach drawTable tables ?X] =>
      destruct (forEach_drawTable_throws tables X) as (c' & E & S' & T');
      [cbn [hasRoundRect with_state with_stack]; congruence | exact Hf
      | rewrite E]
  end.
  exists c'. split; [reflexivity|].
  cbn [stack state transform with_state with_stack] in S', T'.
  split; [rewrite S'; cbn [List.length]; now rewrite Sg | now rewrite T', Tg].
Qed.

(** X29.  When the pass throws.  On a canvas that has a 2-D context, [draw]
    completes exactly when the context has [roundRect] or no table is
    flagged with an issue.  Otherwise the call of [ctx.roundRect] in
    [drawExclamation], which no test guards, throws a [TypeError] out of
    [draw], after [save] and before [restore]: the context is left with one
    more saved state than it had and, from the identity matrix, with the
    view matrix in place. *)
Theorem draw_throws_without_roundRect :
  forall mode tables st canvas (c : Context),
    context2d canvas = Some c ->
    (fst (draw mode tables st (Some canvas)) = Normal <->
     hasRoundRect c = true \/ existsb flagged tables = false) /\
    (hasRoundRect c = false -> existsb flagged tables = true ->
     exists c',
       draw mode tables st (Some canvas)
       = (Uncaught "TypeError: ctx.roundRect is not a function",
          Some (with_context canvas c')) /\
       List.length (stack c') = S (List.length (stack c)) /\
       (transform (state c) = identity ->
        transform (state c') = viewMatrix st)).
Proof.
  intros mode tables st canvas c Hctx.
  assert (Hthrow : hasRoundRect c = false -> existsb flagged tables = true ->
                   exists c',
                     draw mode tables st (Some canvas)
                     = (Uncaught "TypeError: ctx.roundRect is not a function",
                        Some (with_context canvas c')) /\
                     List.length (stack c') = S (List.length (stack c)) /\
                     (transform (state c) = identity ->
                      transform (state c') = viewMatrix st)).
  { intros Hr Hf.
    destruct (draw_body_throws mode tables st canvas c Hr Hf) as (c' & E & S' & T').
    exists c'. unfold draw. rewrite Hctx, E.
    split; [reflexivity|]. split; [exact S'|].
    intros HT. rewrite T', HT. reflexivity. }
  split; [|exact Hthrow]. split.
  - intros Hn.
    destruct (hasRoundRect c) eqn:Hr; [now left|].
    destruct (existsb flagged tables) eqn:Hf; [|now right].
    destruct (Hthrow eq_refl eq_refl) as (c' & E & _).
    rewrite E in Hn. discriminate Hn.
  - intros Hok.
    destruct (draw_body_returns mode tables st canvas c Hok) as [c' E].
    unfold draw. now rewrite Hctx, E.
Qed.

Lemma draw_throws_without_roundRect_witness :
  exists c',
    draw false [sampleTable "t1" 0 0 Types.Issue] initialState
         (Some (sampleCanvas (Some (freshContext false))))
    = (Uncaught "TypeError: ctx.roundRect is not a function",
       Some (with_context (sampleCanvas (Some (freshContext false))) c')) /\
    List.length (stack c') = 1%nat /\
    (transform (state (freshContext false)) = identity ->
     transform (state c') = viewMatrix initialState).
Proof.
  exact (proj2 (draw_throws_without_roundRect
                  false [sampleTable "t1" 0 0 Types.Issue] initialState
                  (sampleCanvas (Some (freshContext false)))
                  (freshContext false) eq_refl)
               eq_refl eq_refl).
Defined.

End DisplayList.

(** ** Export and the redraw that follows it *)

Section ExportPass.

Import Canvas2D.
Local Open Scope canvas_scope.

Lemma fillBlind_bind (m k : M unit) :
  fillBlind m -> fillBlind k -> fillBlind (m ;; k).
Proof.
  intros Hm Hk c1 c2 H. unfold bind.
  specialize (Hm c1 c2 H).
  destruct (m c1) as [[] a1|e1 a1], (m c2) as [[] a2|e2 a2]; cbn in Hm;
    try contradiction.
  - apply Hk. exact Hm.
  - exact Hm.
Qed.

Lemma fillBlind_forEach {A : Type} (f : A -> M unit) (l : list A) :
  (forall a, fillBlind (f a)) -> fillBlind (forEach f l).
Proof.
  intros Hf. induction l as [|a l IH]; cbn [forEach].
  - intros c1 c2 H. exact H.
  - apply fillBlind_bind; [apply Hf | exact IH].
Qed.

Ltac blind_primitive :=
  let c1 := fresh "c" in
  let c2 := fresh "c" in
  let H := fresh "H" in
  intros c1 c2 H;
  destruct c1 as [[? ? ? ? ? ? ?] ? ? ? ?];
  destruct c2 as [[? ? ? ? ? ? ?] ? ? ? ?];
  unfold forgetFill in H;
  cbn [forgetFillState state stack path bitmap hasRoundRect fillStyle
       strokeStyle lineWidth font textAlign textBaseline transform] in H;
  injection H as ? ? ? ? ? ? ? ? ? ?; subst.

Ltac blind_done :=
  canvas_eval; unfold endedAlike, forgetFill; canvas_eval; cbn [map];
  cbv [forgetFillState fillStyle strokeStyle lineWidth font textAlign
       textBaseline transform] in *;
  try split; congruence.

Lemma fillBlind_clearRect bw bh px py w h : fillBlind (clearRect bw bh px py w h).
Proof.
  blind_primitive. unfold clearRect, modify. cbn [state transform].
  destruct (covers _ _ _ _ _ _ _); blind_done.
Qed.

Lemma fillBlind_set_strokeStyle v : fillBlind (set_strokeStyle v).
Proof. blind_primitive. blind_done. Qed.

Lemma fillBlind_set_lineWidth v : fillBlind (set_lineWidth v).
Proof. blind_primitive. blind_done. Qed.

Lemma fillBlind_beginPath : fillBlind beginPath.
Proof. blind_primitive. blind_done. Qed.

Lemma fillBlind_stroke : fillBlind stroke.
Proof. blind_primitive. blind_done. Qed.

Lemma fillBlind_save : fillBlind save.
Proof. blind_primitive. blind_done. Qed.

Lemma fillBlind_translate tx ty : fillBlind (translate tx ty).
Proof. blind_primitive. blind_done. Qed.

Lemma fillBlind_ctx_scale sx sy : fillBlind (ctx_scale sx sy).
Proof. blind_primitive. blind_done. Qed.

Lemma fillBlind_gridColumn canvas gx : fillBlind (gridColumn canvas gx).
Proof. blind_primitive. canvas_eval. blind_done. Qed.

Lemma fillBlind_gridRow canvas gy : fillBlind (gridRow canvas gy).
Proof. blind_primitive. canvas_eval. blind_done. Qed.

Lemma fillBlind_restore : fillBlind restore.
Proof.
  blind_primitive. unfold restore, modify. cbn [stack].
  match goal with
  | H : map forgetFillState ?k1 = map forgetFillState ?k2 |- _ =>
      destruct k1 as [|s1 k1], k2 as [|s2 k2]; cbn [map] in H;
      try discriminate H; [|injection H as Hs Hk]
  end.
  - blind_done.
  - destruct s1, s2. blind_done.
Qed.

Lemma fillBlind_drawTable (t : Types.Table) : fillBlind (drawTable t).
Proof.
  destruct t as [tid pid idx ty s tx ty' cb ca].
  blind_primitive.
  match goal with
  | |- endedAlike (_ {| state := _; stack := _; path := _; bitmap := _;
                        hasRoundRect := ?rr |}) _ =>
      destruct s, rr; canvas_eval; blind_done
  end.
Qed.

Lemma fillBlind_draw_body tables st canvas :
  fillBlind (draw_body false tables st canvas).
Proof.
  unfold draw_body. cbv zeta.
  apply fillBlind_bind; [apply fillBlind_clearRect|].
  apply fillBlind_bind; [intros c1 c2 H; exact H|].
  apply fillBlind_bind; [apply fillBlind_set_strokeStyle|].
  apply fillBlind_bind; [apply fillBlind_set_lineWidth|].
  apply fillBlind_bind; [apply fillBlind_beginPath|].
  apply fillBlind_bind;
    [apply fillBlind_forEach; intros gx; apply fillBlind_gridColumn|].
  apply fillBlind_bind;
    [apply fillBlind_forEach; intros gy; apply fillBlind_gridRow|].
  apply fillBlind_bind; [apply fillBlind_stroke|].
  apply fillBlind_bind; [apply fillBlind_save|].
  apply fillBlind_bind; [apply fillBlind_translate|].
  apply fillBlind_bind; [apply fillBlind_ctx_scale|].
  apply fillBlind_bind;
    [apply fillBlind_forEach; intros t; apply fillBlind_drawTable|].
  apply fillBlind_restore.
Qed.

Lemma redraw_after_export_body tables st canvas (c cT : Context) :
  clearsAll canvas c ->
  draw_body true tables st canvas c = Returned tt cT ->
  endedAlike (draw_body false tables st canvas cT)
             (draw_body false tables st canvas c).
Proof.
  intros Hc HT.
  pose proof (draw_body_frame true tables st canvas c cT HT) as F.
  destruct (set_fillStyle (fillStyle (state c)) cT) as [[] c2|err c2] eqn:E2;
    [|discriminate E2].
  assert (Hblind : forgetFill cT = forgetFill c2).
  { destruct cT as [[? ? ? ? ? ? ?] ? ? ? ?]. injection E2 as <-. reflexivity. }
  assert (F2 : sameFrame false c c2).
  { destruct cT as [[? ? ? ? ? ? ?] ? ? ? ?]. injection E2 as <-.
    destruct F as (A1 & A2 & A3 & A4 & A5 & A6 & _).
    unfold sameFrame. repeat split; assumption. }
  rewrite <- (draw_body_ext false tables st canvas c c2 F2 Hc).
  apply fillBlind_draw_body. exact Hblind.
Qed.

(** X12.  An export leaves no trace on the picture.  When the export pass
    of [handleDownload] completes, the normal redraw that its timer runs
    ends the way a normal pass on the canvas before the export ends, and
    leaves the same bitmap: the white background is gone and nothing else
    differs. *)
Theorem redraw_after_export :
  forall tables st canvas (c : Context) afterExport,
    context2d canvas = Some c ->
    clearsAll canvas c ->
    handleDownload tables st (Some canvas) = (Normal, afterExport) ->
    let redrawn := draw false tables st afterExport in
    let plain := draw false tables st (Some canvas) in
    fst redrawn = fst plain /\
    option_map bitmap (surfaceContext (snd redrawn))
    = option_map bitmap (surfaceContext (snd plain)).
Proof.
  intros tables st canvas c afterExport Hctx Hc H. cbv zeta.
  unfold handleDownload, draw in H. rewrite Hctx in H.
  destruct (draw_body true tables st canvas c) as [[] cT|err cT] eqn:ET;
    [|discriminate H].
  injection H as <-.
  pose proof (redraw_after_export_body tables st canvas c cT Hc ET) as Halike.
  unfold draw. cbn [context2d with_context]. rewrite Hctx.
  change (draw_body false tables st (with_context canvas cT) cT)
    with (draw_body false tables st canvas cT).
  destruct (draw_body false tables st canvas cT) as [[] a1|e1 a1],
           (draw_body false tables st canvas c) as [[] a2|e2 a2];
    cbn [endedAlike] in Halike; try contradiction.
  - split; [reflexivity|]. cbn [snd surfaceContext context2d with_context option_map].
    f_equal. exact (f_equal bitmap Halike).
  - destruct Halike as [-> Halike]. split; [reflexivity|].
    cbn [snd surfaceContext context2d with_context option_map].
    f_equal. exact (f_equal bitmap Halike).
Qed.

Lemma redraw_after_export_witness :
  let tables := [sampleTable "t1" 0 0 Types.Pending;
                 sampleTable "t2" 1 0 Types.Completed] in
  let canvas := sampleCanvas (Some (freshContext true)) in
  option_map bitmap
    (surfaceContext
       (snd (draw false tables initialState
                  (snd (handleDownload tables initialState (Some canvas))))))
  = option_map bitmap
      (surfaceContext (snd (draw false tables initialState (Some canvas)))).
Proof.
  cbv zeta.
  refine (proj2 (redraw_after_export _ initialState
                   (sampleCanvas (Some (freshContext true)))
                   (freshContext true) _ eq_refl eq_refl _)).
  vm_compute. reflexivity.
Defined.

End ExportPass.

(** ** The grid *)

Lemma js_trunc_bounds (q : Q) :
  q - 1 < inject_Z (js_trunc q) /\ inject_Z (js_trunc q) < q + 1.
Proof.
  destruct q as [n d]. unfold js_trunc. cbn [Qnum Qden].
  pose proof (Z.quot_rem' n (Zpos d)) as Hqr.
  pose proof (Z.rem_bound_abs n (Zpos d) ltac:(discriminate)) as Hr.
  set (k := Z.quot n (Zpos d)) in *. set (r := Z.rem n (Zpos d)) in *.
  unfold Qlt, Qminus, Qplus, Qopp, inject_Z. cbn [Qnum Qden].
  rewrite ?Pos.mul_1_r, ?Z.mul_1_r. split; lia.
Qed.

Lemma js_rem_bounds (a b : Q) :
  0 < b -> - b < js_rem a b /\ js_rem a b < b.
Proof.
  intros Hb. unfold js_rem.
  destruct (js_trunc_bounds (a / b)) as [Hlo Hhi].
  set (t := inject_Z (js_trunc (a / b))) in *.
  assert (Hab : a == b * (a / b)) by (field; lra).
  assert (H1 : b * (a / b - 1) < b * t) by (apply Qmult_lt_l; assumption).
  assert (H2 : b * t < b * (a / b + 1)) by (apply Qmult_lt_l; assumption).
  split; lra.
Qed.

Lemma grid_line_in_range (start limit g v : Q) :
  0 < g -> - g < start ->
  In v (for_loop start limit g) -> - g < v /\ v < limit.
Proof.
  intros Hg Hstart Hin. split.
  - unfold for_loop in Hin. apply loop_values_In in Hin.
    destruct Hin as (k & _ & ->).
    assert (0 <= inject_Z (Z.of_nat k)) by (rewrite <- (Zle_Qle 0); lia).
    assert (0 <= inject_Z (Z.of_nat k) * g) by (apply Qmult_le_0_compat; lra).
    lra.
  - now apply (proj1 (for_loop_spec start limit g Hg)).
Qed.

(** X13.  The grid stays on the canvas.  In every state the component can
    reach, the spacing of the grid is at least 10 and at most 250 pixels,
    and every vertical line [draw] traces lies less than one spacing left of
    the canvas and strictly before its right edge; likewise every horizontal
    line, with the top and bottom edges. *)
Theorem grid_lines_on_canvas :
  forall hypot tables canvasRef (evs : list Event) (canvas : Canvas2D.Canvas),
    let st := fst (run hypot tables canvasRef initialState evs) in
    let gridSize := 50 * scale st in
    10 <= gridSize <= 250 /\
    (forall gx,
        In gx (for_loop (js_rem (x (offset st)) gridSize)
                        (Canvas2D.width canvas) gridSize) ->
        - gridSize < gx /\ gx < Canvas2D.width canvas) /\
    (forall gy,
        In gy (for_loop (js_rem (y (offset st)) gridSize)
                        (Canvas2D.height canvas) gridSize) ->
        - gridSize < gy /\ gy < Canvas2D.height canvas).
Proof.
  intros hypot tables canvasRef evs canvas st gridSize.
  destruct (reachable_in_policy hypot tables canvasRef evs) as [Hlo Hhi].
  fold st in Hlo, Hhi.
  assert (Hg : 0 < gridSize) by (unfold gridSize; lra).
  split; [unfold gridSize; split; lra|].
  split; intros v Hv.
  - refine (grid_line_in_range _ _ gridSize v Hg _ Hv).
    apply (js_rem_bounds _ gridSize Hg).
  - refine (grid_line_in_range _ _ gridSize v Hg _ Hv).
    apply (js_rem_bounds _ gridSize Hg).
Qed.

Lemma grid_lines_on_canvas_witness :
  - (50 * scale initialState) < 50 /\ 50 < Canvas2D.width (sampleCanvas None).
Proof.
  apply (proj1 (proj2 (grid_lines_on_canvas hypot_floor [] None []
                                            (sampleCanvas None))) 50).
  vm_compute. right. left. reflexivity.
Defined.

(** * Properties of the callers *)

(** ** Counters as numbers *)

Lemma numberOf_inj (a b : nat) : numberOf a == numberOf b -> a = b.
Proof.
  unfold numberOf. intros H. apply Nat2Z.inj.
  unfold Qeq, inject_Z in H. cbn [Qnum Qden] in H. lia.
Qed.

Lemma iterations_numberOf (n : nat) : iterations (numberOf n) = n.
Proof.
  unfold iterations, loop_count.
  change (Qlt_bool 0 1) with true. cbv iota.
  assert (E : (numberOf n - 0) / 1 == inject_Z (Z.of_nat n))
    by (unfold numberOf; field).
  rewrite (Qceiling_comp _ _ E), Qceiling_Z. apply Nat2Z.id.
Qed.

Lemma js_rem_counter (k : nat) :
  js_rem (numberOf k) 10 == numberOf (k mod 10).
Proof.
  assert (T : js_trunc (numberOf k / 10) = (Z.of_nat k / 10)%Z).
  { unfold js_trunc, numberOf, Qdiv, Qmult, Qinv, inject_Z. cbn [Qnum Qden].
    rewrite Z.mul_1_r. apply Z.quot_div_nonneg; lia. }
  unfold js_rem. rewrite T. unfold numberOf.
  rewrite Nat2Z.inj_mod, Z.mod_eq by discriminate.
  unfold Zminus. rewrite inject_Z_plus, inject_Z_opp, inject_Z_mult.
  change (Z.of_nat 10) with 10%Z. change (inject_Z 10) with 10. ring.
Qed.

Lemma floor_counter (k : nat) :
  Math_floor (numberOf k / 10) == numberOf (k / 10).
Proof.
  unfold Math_floor, numberOf, Qdiv, Qmult, Qinv, inject_Z, Qfloor.
  cbn [Qnum Qden]. rewrite Z.mul_1_r, Nat2Z.inj_div. reflexivity.
Qed.

Lemma counterString_inj (a b : nat) : counterString a = counterString b -> a = b.
Proof.
  unfold counterString. intros H.
  assert (E : Some (Nat.to_uint a) = Some (Nat.to_uint b)).
  { rewrite <- !NilEmpty.usu. now rewrite H. }
  injection E as E.
  rewrite <- (Unsigned.of_to a), <- (Unsigned.of_to b). now rewrite E.
Qed.

Lemma append_inj_r (p a b : string) : (p ++ a = p ++ b)%string -> a = b.
Proof.
  induction p as [|c p IH]; cbn; intros H; [exact H|].
  injection H as H. now apply IH.
Qed.

(** ** The layout of a new project *)

Lemma generateType_spec projectId count type (tables : list Types.Table) (idx : nat) :
  generateType projectId count type (tables, idx)
  = (tables ++ map (newTable projectId type) (seq idx (iterations count)),
     (idx + iterations count)%nat).
Proof.
  unfold generateType. generalize (iterations count) as n.
  intros n. generalize 0%nat as s. revert tables idx.
  induction n as [|n IH]; intros tables idx s; cbn [seq fold_left map].
  - now rewrite app_nil_r, Nat.add_0_r.
  - cbn [fst snd]. rewrite IH. cbn [seq map].
    rewrite <- app_assoc. cbn [app]. f_equal. lia.
Qed.

Lemma generateTables_eq projectId small medium large :
  generateTables projectId small medium large
  = map (newTable projectId Types.Small) (seq 0 (iterations small))
    ++ map (newTable projectId Types.Medium)
           (seq (iterations small) (iterations medium))
    ++ map (newTable projectId Types.Large)
           (seq (iterations small + iterations medium) (iterations large)).
Proof.
  unfold generateTables. rewrite !generateType_spec. cbn [fst app].
  now rewrite <- app_assoc.
Qed.

Lemma generateTables_nth projectId small medium large (k : nat) :
  nth_error (generateTables projectId small medium large) k
  = if (k <? iterations small + iterations medium + iterations large)%nat
    then Some (newTable projectId
                        (typeAt (iterations small) (iterations medium) k) k)
    else None.
Proof.
  rewrite generateTables_eq. unfold typeAt.
  set (a := iterations small). set (b := iterations medium).
  set (c := iterations large).
  destruct (k <? a)%nat eqn:Ha.
  - apply Nat.ltb_lt in Ha.
    replace (k <? a + b + c)%nat with true by (symmetry; apply Nat.ltb_lt; lia).
    rewrite nth_error_app1 by (rewrite length_map, length_seq; lia).
    rewrite nth_error_map, nth_error_seq.
    replace (k <? a)%nat with true by (symmetry; apply Nat.ltb_lt; lia).
    reflexivity.
  - apply Nat.ltb_ge in Ha.
    rewrite nth_error_app2 by (rewrite length_map, length_seq; lia).
    rewrite length_map, length_seq.
    destruct (k <? a + b)%nat eqn:Hb.
    + apply Nat.ltb_lt in Hb.
      replace (k <? a + b + c)%nat with true by (symmetry; apply Nat.ltb_lt; lia).
      rewrite nth_error_app1 by (rewrite length_map, length_seq; lia).
      rewrite nth_error_map, nth_error_seq.
      replace (k - a <? b)%nat with true by (symmetry; apply Nat.ltb_lt; lia).
      cbn [option_map]. do 2 f_equal. lia.
    + apply Nat.ltb_ge in Hb.
      rewrite nth_error_app2 by (rewrite length_map, length_seq; lia).
      rewrite length_map, length_seq, nth_error_map, nth_error_seq.
      destruct (k <? a + b + c)%nat eqn:Hc.
      * apply Nat.ltb_lt in Hc.
        replace (k - a - b <? c)%nat with true by (symmetry; apply Nat.ltb_lt; lia).
        cbn [option_map]. do 2 f_equal. lia.
      * apply Nat.ltb_ge in Hc.
        replace (k - a - b <? c)%nat with false by (symmetry; apply Nat.ltb_ge; lia).
        reflexivity.
Qed.

Lemma generateTables_length projectId small medium large :
  List.length (generateTables projectId small medium large)
  = (iterations small + iterations medium + iterations large)%nat.
Proof.
  rewrite generateTables_eq, !length_app, !length_map, !length_seq. lia.
Qed.

Lemma generateTables_at projectId small medium large (k : nat) (t : Types.Table) :
  nth_error (generateTables projectId small medium large) k = Some t ->
  t = newTable projectId (typeAt (iterations small) (iterations medium) k) k.
Proof.
  rewrite generateTables_nth.
  destruct (k <? _)%nat; [|discriminate]. now intros [= <-].
Qed.

(** X14.  The tables of a new project.  [handleCreateProject] lays out one
    table per iteration of its three loops (for whole numbers, as many as
    asked for), the small ones first, then the medium ones, then the large
    ones, ten to a row: the [k]-th table, counting from 0, has index [k], id
    [projectId_k], column [k mod 10] and row [k / 10]; it is pending and
    completed by nobody. *)
Theorem project_layout :
  forall projectId small medium large,
    let tables := generateTables projectId small medium large in
    List.length tables
    = (iterations small + iterations medium + iterations large)%nat /\
    (forall n : nat, iterations (numberOf n) = n) /\
    forall (k : nat) (t : Types.Table),
      nth_error tables k = Some t ->
      Types.id t = (projectId ++ "_" ++ counterString k)%string /\
      Types.projectId t = projectId /\
      Types.index t = numberOf k /\
      Types.type t = typeAt (iterations small) (iterations medium) k /\
      Types.status t = Types.Pending /\
      Types.completedBy t = None /\ Types.completedAt t = None /\
      Types.x t == numberOf (k mod 10) /\
      Types.y t == numberOf (k / 10).
Proof.
  intros projectId small medium large tables.
  split; [apply generateTables_length|]. split; [apply iterations_numberOf|].
  intros k t Hk. apply generateTables_at in Hk. subst t.
  repeat split; cbn [newTable Types.x Types.y]; unfold spacing.
  - rewrite js_rem_counter. ring.
  - rewrite floor_counter. ring.
Qed.

Lemma project_layout_witness :
  exists t,
    nth_error (generateTables "p" 8 3 2) 12 = Some t /\
    Types.type t = Types.Large /\
    Types.x t == 2 /\ Types.y t == 1.
Proof.
  exists (newTable "p" Types.Large 12). split; [reflexivity|].
  destruct (proj2 (proj2 (project_layout "p" 8 3 2)) 12%nat
                  (newTable "p" Types.Large 12) eq_refl)
    as (_ & _ & _ & Hty & _ & _ & _ & Hx & Hy).
  split; [exact Hty|]. split; [exact Hx | exact Hy].
Defined.

(** X15.  The ids of the tables laid out for a project are pairwise
    distinct. *)
Theorem project_layout_ids_distinct :
  forall projectId small medium large,
    NoDup (map Types.id (generateTables projectId small medium large)).
Proof.
  intros projectId small medium large.
  apply NoDup_nth_error. intros i j Hi Hij.
  rewrite length_map in Hi.
  rewrite !nth_error_map in Hij.
  destruct (nth_error (generateTables projectId small medium large) i)
    as [t|] eqn:Ei; [|apply nth_error_None in Ei; lia].
  destruct (nth_error (generateTables projectId small medium large) j)
    as [u|] eqn:Ej; [|discriminate Hij].
  apply generateTables_at in Ei, Ej. subst t u.
  cbn [option_map newTable Types.id] in Hij. injection Hij as Hij.
  apply append_inj_r in Hij. apply (append_inj_r "_") in Hij.
  now apply counterString_inj.
Qed.

Lemma newTable_onGrid projectId type (k : nat) : onGrid (newTable projectId type k).
Proof.
  exists (Z.of_nat (k mod 10)), (Z.of_nat (k / 10)).
  cbn [newTable Types.x Types.y]. unfold spacing.
  rewrite js_rem_counter, floor_counter. unfold numberOf. split; ring.
Qed.

Lemma generateTables_gridLayout projectId small medium large :
  gridLayout (generateTables projectId small medium large).
Proof.
  split.
  - intros t Ht. apply In_nth_error in Ht. destruct Ht as [k Hk].
    apply generateTables_at in Hk. subst t. apply newTable_onGrid.
  - intros i j t u Hi Hj Hx Hy.
    apply generateTables_at in Hi, Hj. subst t u.
    cbn [newTable Types.x Types.y] in Hx, Hy. unfold spacing in Hx, Hy.
    rewrite !js_rem_counter in Hx. rewrite !floor_counter in Hy.
    assert (Ex : numberOf (i mod 10) == numberOf (j mod 10)) by lra.
    assert (Ey : numberOf (i / 10) == numberOf (j / 10)) by lra.
    apply numberOf_inj in Ex, Ey.
    rewrite (Nat.div_mod_eq i 10), (Nat.div_mod_eq j 10). congruence.
Qed.

(** X16.  The tables laid out for a project sit on cells of the integer
    grid, no two of them on the same cell. *)
Theorem project_layout_cells_distinct :
  forall projectId small medium large,
    gridLayout (generateTables projectId small medium large).
Proof.
  intros projectId small medium large. apply generateTables_gridLayout.
Qed.

(** ** Clicking a table of a layout *)

Lemma grid_cells_apart (i j : Z) (c size pitch : Q) :
  0 <= size -> size < pitch ->
  inject_Z i * pitch <= c -> c <= inject_Z i * pitch + size ->
  inject_Z j * pitch <= c -> c <= inject_Z j * pitch + size ->
  i = j.
Proof.
  intros Hs Hp A1 A2 B1 B2.
  assert (H1 : (inject_Z i - inject_Z j) * pitch < pitch) by lra.
  assert (H2 : (inject_Z j - inject_Z i) * pitch < pitch) by lra.
  assert (Hpos : 0 < pitch) by lra.
  assert (L1 : inject_Z i - inject_Z j < 1).
  { apply Qnot_le_lt. intros Hle.
    assert (1 * pitch <= (inject_Z i - inject_Z j) * pitch)
      by (apply Qmult_le_compat_r; lra). lra. }
  assert (L2 : inject_Z j - inject_Z i < 1).
  { apply Qnot_le_lt. intros Hle.
    assert (1 * pitch <= (inject_Z j - inject_Z i) * pitch)
      by (apply Qmult_le_compat_r; lra). lra. }
  assert (Z1 : inject_Z i < inject_Z (j + 1))
    by (rewrite inject_Z_plus; change (inject_Z 1) with 1; lra).
  assert (Z2 : inject_Z j < inject_Z (i + 1))
    by (rewrite inject_Z_plus; change (inject_Z 1) with 1; lra).
  rewrite <- Zlt_Qlt in Z1, Z2. lia.
Qed.

Lemma same_cell_of_common_point (cx cy : number) (t u : Types.Table) :
  onGrid t -> onGrid u ->
  underClick cx cy t = true -> underClick cx cy u = true ->
  Types.x t == Types.x u /\ Types.y t == Types.y u.
Proof.
  intros (i & j & Hx & Hy) (i' & j' & Hx' & Hy') Ht Hu.
  apply underClick_iff in Ht, Hu.
  unfold TABLE_WIDTH, TABLE_HEIGHT, GAP in Ht, Hu.
  rewrite Hx, Hy in Ht. rewrite Hx', Hy' in Hu.
  destruct Ht as (A1 & A2 & A3 & A4). destruct Hu as (B1 & B2 & B3 & B4).
  assert (Ei : i = i')
    by (apply (grid_cells_apart i i' cx 45 (45 + 15)); (assumption || lra)).
  assert (Ej : j = j')
    by (apply (grid_cells_apart j j' cy 25 (25 + 15)); (assumption || lra)).
  subst i' j'. rewrite Hx, Hx', Hy, Hy'. split; reflexivity.
Qed.

Lemma unique_hit (tables : list Types.Table) (cx cy : number) (t : Types.Table) :
  gridLayout tables -> In t tables -> underClick cx cy t = true ->
  find (underClick cx cy) tables = Some t.
Proof.
  intros [Hgrid Hdistinct] Hin Hhit.
  pose proof (find_is_first_match (underClick cx cy) tables) as Hfind.
  destruct (find (underClick cx cy) tables) as [u|].
  - destruct Hfind as (before & after & Hsplit & Hu & _).
    apply In_nth_error in Hin. destruct Hin as [i Hi].
    assert (Hj : nth_error tables (List.length before) = Some u).
    { rewrite Hsplit, nth_error_app2, Nat.sub_diag by lia. reflexivity. }
    assert (Hut : In u tables) by (rewrite Hsplit; apply in_elt).
    assert (Hit : In t tables) by (eapply nth_error_In; exact Hi).
    destruct (same_cell_of_common_point cx cy t u
                (Hgrid t Hit) (Hgrid u Hut) Hhit Hu) as [Ex Ey].
    pose proof (Hdistinct _ _ t u Hi Hj Ex Ey) as E. subst i.
    rewrite Hj in Hi. exact Hi.
  - rewrite (Hfind t Hin) in Hhit. discriminate Hhit.
Qed.

(** X17.  Where no two tables share a grid cell the hit test has one
    answer: on a list of tables that sit on distinct cells of the integer
    grid, a click whose point lies in the rectangle of a table of the list
    is answered with that table, wherever the table stands in the list. *)
Theorem hit_test_unique_on_grid :
  forall tables canvas st (e : MouseEvent) (t : Types.Table),
    gridLayout tables ->
    In t tables ->
    underClick (clickX canvas st e) (clickY canvas st e) t = true ->
    clickedTable tables canvas st e = Some t.
Proof.
  intros tables canvas st e t Hgrid Hin Hhit.
  unfold clickedTable. now apply unique_hit.
Qed.

Lemma hit_test_unique_on_grid_witness :
  clickedTable (generateTables "p" 3 0 0) (sampleCanvas None) initialState
               {| clientX := 200; clientY := 60 |}
  = Some (newTable "p" Types.Small 2).
Proof.
  apply hit_test_unique_on_grid.
  - apply generateTables_gridLayout.
  - right. right. left. reflexivity.
  - reflexivity.
Defined.

(** X18.  A click on the middle of a laid-out table reports that table.  In
    every state the component can reach while no drag is in progress, on the
    tables laid out for a project, a click whose position from the corner of
    the canvas's bounding rectangle ([clientX - rect.left] and
    [clientY - rect.top], the coordinates [handleClick] reads) is the centre
    of the [k]-th table's rectangle under the current offset and scale calls
    [onTableClick] exactly once, with the id of that table.  The statement
    is in the coordinates of the click; they are those of the bitmap only
    while the canvas is displayed at the size of its bitmap. *)
Theorem click_on_laid_out_table :
  forall hypot canvasRef (evs : list Event) projectId small medium large
         (canvas : Canvas2D.Canvas) (k : nat) (t : Types.Table) (e : MouseEvent),
    let tables := generateTables projectId small medium large in
    let st := fst (run hypot tables canvasRef initialState evs) in
    let r := rectFor (Types.x t) (Types.y t) in
    nth_error tables k = Some t ->
    isDragging st = false ->
    clientX e - Canvas2D.rect_left canvas
    == toScreenX st (rect_x r + rect_width r / 2) ->
    clientY e - Canvas2D.rect_top canvas
    == toScreenY st (rect_y r + rect_height r / 2) ->
    handleClick tables (Some canvas) st e
    = [(projectId ++ "_" ++ counterString k)%string].
Proof.
  intros hypot canvasRef evs projectId small medium large canvas k t e
         tables st r Hk Hidle Hx Hy.
  pose proof (scale_positive_of_policy st
                (reachable_in_policy hypot tables canvasRef evs)) as Hs.
  assert (Hhit : underClick (clickX canvas st e) (clickY canvas st e) t = true).
  { apply (body_clicked_iff st canvas e t Hs). cbv zeta. fold r.
    rewrite Hx, Hy, !toScreenX_eq, !toScreenY_eq.
    unfold r, rectFor, CELL_WIDTH, CELL_HEIGHT. cbn [rect_x rect_y rect_width rect_height].
    rewrite !screen_le_iff by exact Hs. unfold GAP.
    setoid_replace (45 / 2) with 22.5 by reflexivity.
    setoid_replace (25 / 2) with 12.5 by reflexivity.
    repeat split; lra. }
  unfold handleClick, clickedTable. rewrite Hidle.
  rewrite (unique_hit tables _ _ t
             (generateTables_gridLayout projectId small medium large)
             (nth_error_In _ _ Hk) Hhit).
  apply generateTables_at in Hk. subst t. reflexivity.
Qed.

Lemma click_on_laid_out_table_witness :
  handleClick (generateTables "p" 12 0 0) (Some (sampleCanvas None))
              initialState {| clientX := 50 + 60 + 45 / 2; clientY := 50 + 40 + 25 / 2 |}
  = ["p_11"%string].
Proof.
  refine (click_on_laid_out_table hypot_floor None [] "p" 12 0 0
            (sampleCanvas None) 11 (newTable "p" Types.Small 11)
            {| clientX := 50 + 60 + 45 / 2; clientY := 50 + 40 + 25 / 2 |}
            eq_refl eq_refl _ _).
  - vm_compute. reflexivity.
  - vm_compute. reflexivity.
Defined.

(** ** The status of a table *)

Lemma updateTable_placement key s by_ at_ (store : list Types.Table) :
  map placement (updateTable key (withStatus s by_ at_) store)
  = map placement store.
Proof.
  unfold updateTable. rewrite map_map. apply map_ext. intros t.
  destruct (String.eqb (Types.id t) key); reflexivity.
Qed.

Lemma handleTableClick_placement userId now active store tableId :
  map placement (handleTableClick userId now active store tableId)
  = map placement store.
Proof.
  unfold handleTableClick.
  destruct (findTable active tableId) as [table|]; [|reflexivity].
  destruct (Types.status table); apply updateTable_placement.
Qed.

Lemma nth_error_placement (l l' : list Types.Table) (i : nat) (t : Types.Table) :
  map placement l = map placement l' ->
  nth_error l' i = Some t ->
  exists u, nth_error l i = Some u /\ placement u = placement t.
Proof.
  intros H Hi.
  assert (E : nth_error (map placement l) i = Some (placement t))
    by (rewrite H, nth_error_map, Hi; reflexivity).
  rewrite nth_error_map in E.
  destruct (nth_error l i) as [u|]; [|discriminate E].
  exists u. split; [reflexivity|]. cbn [option_map] in E. congruence.
Qed.

Lemma gridLayout_placement (l l' : list Types.Table) :
  map placement l = map placement l' -> gridLayout l -> gridLayout l'.
Proof.
  intros H [Hgrid Hdistinct]. split.
  - intros t Ht. apply In_nth_error in Ht. destruct Ht as [i Hi].
    destruct (nth_error_placement l l' i t H Hi) as (u & Hu & Ep).
    destruct (Hgrid u (nth_error_In _ _ Hu)) as (a & b & Hx & Hy).
    injection Ep as _ _ _ _ Ex Ey. exists a, b. now rewrite <- Ex, <- Ey.
  - intros i j t u Hi Hj Hx Hy.
    destruct (nth_error_placement l l' i t H Hi) as (t0 & Ht0 & Ept).
    destruct (nth_error_placement l l' j u H Hj) as (u0 & Hu0 & Epu).
    injection Ept as _ _ _ _ Ext Eyt. injection Epu as _ _ _ _ Exu Eyu.
    apply (Hdistinct i j t0 u0 Ht0 Hu0); congruence.
Qed.

(** X19.  A click on the plan never moves a table.  Whatever table is
    clicked, by whom and when, and on whatever live list the table is looked
    up, the store holds afterwards the same tables in the same order with
    the same ids, projects, indices, types and grid cells; a layout of
    distinct grid cells stays one, and so does the layout of a new project
    after any number of clicks. *)
Theorem table_click_keeps_layout :
  forall userId now active store tableId,
    map placement (handleTableClick userId now active store tableId)
    = map placement store /\
    (gridLayout store ->
     gridLayout (handleTableClick userId now active store tableId)) /\
    forall projectId small medium large (clicks : list TableClick),
      gridLayout (fold_left applyClick clicks
                            (generateTables projectId small medium large)).
Proof.
  intros userId now active store tableId.
  split; [apply handleTableClick_placement|]. split.
  - apply gridLayout_placement. symmetry. apply handleTableClick_placement.
  - intros projectId small medium large clicks.
    assert (G : forall s, gridLayout s -> gridLayout (fold_left applyClick clicks s)).
    { induction clicks as [|c clicks IH]; intros s Hs; [exact Hs|].
      cbn [fold_left]. apply IH. unfold applyClick.
      eapply gridLayout_placement; [|exact Hs].
      symmetry. apply handleTableClick_placement. }
    apply G, generateTables_gridLayout.
Qed.

Lemma table_click_keeps_layout_witness :
  let store := generateTables "p" 2 0 0 in
  gridLayout (handleTableClick "u" 0 (Some store) store "p_1").
Proof.
  cbv zeta.
  apply (proj1 (proj2 (table_click_keeps_layout "u" 0 _ _ "p_1"))).
  apply generateTables_gridLayout.
Defined.

Lemma unique_by_id (store : list Types.Table) (t u : Types.Table) :
  NoDup (map Types.id store) -> In t store -> In u store ->
  Types.id t = Types.id u -> t = u.
Proof.
  induction store as [|a store IH]; intros Hnd Ht Hu Hid; [contradiction|].
  cbn [map] in Hnd. apply NoDup_cons_iff in Hnd. destruct Hnd as [Hnotin Hnd].
  destruct Ht as [<- | Ht], Hu as [<- | Hu].
  - reflexivity.
  - exfalso. apply Hnotin. rewrite Hid. now apply in_map.
  - exfalso. apply Hnotin. rewrite <- Hid. now apply in_map.
  - now apply IH.
Qed.

Lemma liveTables_In (projectId : string) (store : list Types.Table) (t : Types.Table) :
  In t (liveTables projectId store)
  <-> In t store /\ Types.projectId t = projectId.
Proof.
  unfold liveTables. rewrite filter_In, String.eqb_eq. reflexivity.
Qed.

Lemma findTable_unique (store active : list Types.Table) (t : Types.Table) :
  NoDup (map Types.id store) ->
  (forall a, In a active -> In a store) ->
  In t active ->
  findTable (Some active) (Types.id t) = Some t.
Proof.
  intros Hnd Hsub Hin. unfold findTable.
  pose proof (find_is_first_match
                (fun x => String.eqb (Types.id x) (Types.id t)) active) as Hf.
  destruct (find _ active) as [u|].
  - destruct Hf as (before & after & Hsplit & Hu & _).
    apply String.eqb_eq in Hu. f_equal.
    apply (unique_by_id store u t Hnd); [|now apply Hsub|exact Hu].
    apply Hsub. rewrite Hsplit. apply in_elt.
  - specialize (Hf t Hin). cbv beta in Hf.
    rewrite String.eqb_refl in Hf. discriminate Hf.
Qed.

Lemma click_advances (userId : string) (now : number)
      (store active : list Types.Table) (t : Types.Table) :
  NoDup (map Types.id store) ->
  (forall a, In a active -> In a store) ->
  In t active ->
  handleTableClick userId now (Some active) store (Types.id t)
  = advanceAt userId now (Types.id t) store.
Proof.
  intros Hnd Hsub Hin. unfold handleTableClick.
  rewrite (findTable_unique store active t Hnd Hsub Hin).
  unfold advanceAt, updateTable.
  destruct (Types.status t) eqn:Hst; apply map_ext_in; intros x Hx;
    destruct (String.eqb (Types.id x) (Types.id t)) eqn:E; try reflexivity;
    apply String.eqb_eq in E;
    rewrite (unique_by_id store x t Hnd Hx (Hsub t Hin) E);
    unfold advance; now rewrite Hst.
Qed.

Lemma advanceAt_ids userId now key (store : list Types.Table) :
  map Types.id (advanceAt userId now key store) = map Types.id store.
Proof.
  unfold advanceAt. rewrite map_map. apply map_ext. intros x.
  destruct (String.eqb (Types.id x) key); [|reflexivity].
  unfold advance. destruct (Types.status x); reflexivity.
Qed.

Lemma advance_thrice_status userId now (x : Types.Table) :
  Types.status (advance userId now (advance userId now (advance userId now x)))
  = Types.status x.
Proof.
  unfold advance. destruct x as [? ? ? ? [] ? ? ? ?]; reflexivity.
Qed.

Lemma advance_keeps userId now (x : Types.Table) :
  Types.id (advance userId now x) = Types.id x /\
  Types.projectId (advance userId now x) = Types.projectId x.
Proof.
  unfold advance. destruct (Types.status x); split; reflexivity.
Qed.

Lemma live_click (userId : string) (now : number)
      (store : list Types.Table) (t : Types.Table) :
  NoDup (map Types.id store) -> In t store ->
  handleTableClick userId now (Some (liveTables (Types.projectId t) store))
                   store (Types.id t)
  = advanceAt userId now (Types.id t) store.
Proof.
  intros Hnd Hin. apply click_advances; [exact Hnd| |].
  - intros a Ha. now apply liveTables_In in Ha.
  - apply liveTables_In. now split.
Qed.

(** X20.  Three clicks come round.  In a store with distinct ids, a click
    on a table of the store, looked up in the live list of its project,
    advances that table and no other (pending to completed, completed to
    issue, issue to pending); three clicks on the same table leave every
    table of the store with the status it had. *)
Theorem table_click_cycle :
  forall userId now (store : list Types.Table) (t : Types.Table),
    NoDup (map Types.id store) -> In t store ->
    let click := fun s =>
      handleTableClick userId now
                       (Some (liveTables (Types.projectId t) s)) s (Types.id t) in
    click store = advanceAt userId now (Types.id t) store /\
    Types.status (advance userId now t) = nextStatus (Types.status t) /\
    map Types.status (click (click (click store))) = map Types.status store.
Proof.
  intros userId now store t Hnd Hin click.
  assert (Hstep : forall s u,
             NoDup (map Types.id s) -> In u s ->
             Types.id u = Types.id t -> Types.projectId u = Types.projectId t ->
             click s = advanceAt userId now (Types.id t) s /\
             NoDup (map Types.id (advanceAt userId now (Types.id t) s)) /\
             In (advance userId now u) (advanceAt userId now (Types.id t) s)).
  { intros s u Hs Hu Hid Hpid. unfold click. rewrite <- Hid, <- Hpid.
    split; [now apply live_click|]. split.
    - now rewrite advanceAt_ids.
    - unfold advanceAt.
      apply (in_map (fun x => if String.eqb (Types.id x) (Types.id u)
                              then advance userId now x else x)) in Hu.
      now rewrite String.eqb_refl in Hu. }
  destruct (Hstep store t Hnd Hin eq_refl eq_refl) as (E1 & N1 & I1).
  destruct (advance_keeps userId now t) as [K1 P1].
  destruct (Hstep _ _ N1 I1 K1 P1) as (E2 & N2 & I2).
  destruct (advance_keeps userId now (advance userId now t)) as [K2 P2].
  destruct (Hstep _ _ N2 I2 (eq_trans K2 K1) (eq_trans P2 P1)) as (E3 & _ & _).
  split; [exact E1|]. split.
  - unfold advance. destruct (Types.status t); reflexivity.
  - rewrite E1, E2, E3. unfold advanceAt. rewrite !map_map.
    apply map_ext. intros x.
    destruct (String.eqb (Types.id x) (Types.id t)) eqn:E; [|now rewrite !E].
    destruct (advance_keeps userId now x) as [Kx _].
    destruct (advance_keeps userId now (advance userId now x)) as [Kx2 _].
    rewrite Kx, E, Kx2, Kx, E. apply advance_thrice_status.
Qed.

Lemma table_click_cycle_witness :
  let store := generateTables "p" 3 0 0 in
  let click := fun s => handleTableClick "u" 7 (Some (liveTables "p" s)) s "p_1" in
  map Types.status (click (click (click store))) = map Types.status store.
Proof.
  cbv zeta.
  refine (proj2 (proj2 (table_click_cycle "u" 7 (generateTables "p" 3 0 0)
                          (newTable "p" Types.Small 1) _ _))).
  - vm_compute. repeat constructor; cbn; intuition discriminate.
  - right. left. reflexivity.
Defined.

Lemma handleTableClick_records userId now active store tableId :
  Forall recordsCompletion store ->
  Forall recordsCompletion (handleTableClick userId now active store tableId).
Proof.
  intros H. unfold handleTableClick.
  destruct (findTable active tableId) as [table|]; [|exact H].
  destruct (Types.status table); unfold updateTable; apply Forall_map;
    apply (Forall_impl _ (P := recordsCompletion)); try exact H;
    intros x Hx; destruct (String.eqb (Types.id x) tableId); try exact Hx;
    unfold recordsCompletion; cbn [withStatus Types.status Types.completedBy
                                  Types.completedAt];
    split; (reflexivity || discriminate).
Qed.

(** X21.  Completion is recorded exactly while a table is completed.  A
    click keeps this true of every table of the store, whatever was clicked
    and on whatever list it was looked up; it is true of the tables laid out
    for a project, and so of the store after any clicks on them. *)
Theorem completion_is_recorded :
  (forall userId now active store tableId,
      Forall recordsCompletion store ->
      Forall recordsCompletion
             (handleTableClick userId now active store tableId)) /\
  forall projectId small medium large (clicks : list TableClick),
    Forall recordsCompletion
           (fold_left applyClick clicks
                      (generateTables projectId small medium large)).
Proof.
  split; [apply handleTableClick_records|].
  intros projectId small medium large clicks.
  assert (G : forall s, Forall recordsCompletion s ->
                        Forall recordsCompletion (fold_left applyClick clicks s)).
  { induction clicks as [|c clicks IH]; intros s Hs; [exact Hs|].
    cbn [fold_left]. apply IH. now apply handleTableClick_records. }
  apply G. apply Forall_forall. intros t Ht.
  apply In_nth_error in Ht. destruct Ht as [k Hk].
  apply generateTables_at in Hk. subst t. split; reflexivity.
Qed.

Lemma completion_is_recorded_witness :
  let store := [sampleTable "p_0" 0 0 Types.Pending] in
  Forall recordsCompletion (handleTableClick "u" 0 (Some store) store "p_0").
Proof.
  cbv zeta.
  apply (proj1 completion_is_recorded).
  constructor; [split; reflexivity | constructor].
Defined.

(** X22.  The two versions of the handler agree: [toggleTableStatus] of the
    other version of the page computes, on every store, live list and id,
    the store that [handleTableClick] computes. *)
Theorem toggle_versions_agree :
  forall userId now active store tableId,
    toggleTableStatus userId now active store tableId
    = handleTableClick userId now active store tableId.
Proof.
  intros userId now active store tableId.
  unfold toggleTableStatus, handleTableClick.
  destruct (findTable active tableId) as [table|]; [|reflexivity].
  destruct (Types.status table); reflexivity.
Qed.

(** X23.  From the click to the store.  The plan shows the live list of a
    project whose tables sit on distinct grid cells, in a store with
    distinct ids.  A click delivered while no drag is in progress, at a
    point in the rectangle of a table of the list, advances that table in
    the store and changes no other; a click at a point in no rectangle, or
    delivered during a drag, leaves the store as it is. *)
Theorem click_reaches_store :
  forall userId now projectId (store : list Types.Table)
         (canvas : Canvas2D.Canvas) st (e : MouseEvent),
    let tables := liveTables projectId store in
    NoDup (map Types.id store) ->
    gridLayout tables ->
    (forall t, In t tables -> isDragging st = false ->
               underClick (clickX canvas st e) (clickY canvas st e) t = true ->
               clickThrough userId now tables (Some canvas) st e store
               = advanceAt userId now (Types.id t) store) /\
    ((forall t, In t tables ->
                underClick (clickX canvas st e) (clickY canvas st e) t = false) ->
     clickThrough userId now tables (Some canvas) st e store = store) /\
    (isDragging st = true ->
     clickThrough userId now tables (Some canvas) st e store = store).
Proof.
  intros userId now projectId store canvas st e tables Hnd Hgrid.
  unfold clickThrough, handleClick, clickedTable. repeat split.
  - intros t Hin Hidle Hhit. rewrite Hidle.
    rewrite (unique_hit tables _ _ t Hgrid Hin Hhit). cbn [fold_left].
    apply click_advances; [exact Hnd | | exact Hin].
    intros a Ha. now apply liveTables_In in Ha.
  - intros Hmiss. destruct (isDragging st); [reflexivity|].
    pose proof (find_is_first_match
                  (underClick (clickX canvas st e) (clickY canvas st e)) tables)
      as Hf.
    destruct (find _ tables) as [u|]; [|reflexivity].
    destruct Hf as (before & after & Hsplit & Hu & _).
    rewrite Hmiss in Hu; [discriminate Hu|].
    rewrite Hsplit. apply in_elt.
  - intros Hdrag. now rewrite Hdrag.
Qed.

Lemma click_reaches_store_witness :
  clickThrough "u" 7 (liveTables "p" (generateTables "p" 3 0 0))
               (Some (sampleCanvas None)) initialState
               {| clientX := 70; clientY := 60 |} (generateTables "p" 3 0 0)
  = advanceAt "u" 7 "p_0" (generateTables "p" 3 0 0).
Proof.
  refine (proj1 (click_reaches_store "u" 7 "p" (generateTables "p" 3 0 0)
                   (sampleCanvas None) initialState
                   {| clientX := 70; clientY := 60 |} _ _)
                (newTable "p" Types.Small 0) _ eq_refl eq_refl).
  - vm_compute. repeat constructor; cbn; intuition discriminate.
  - change (liveTables "p" (generateTables "p" 3 0 0))
      with (generateTables "p" 3 0 0).
    apply generateTables_gridLayout.
  - left. reflexivity.
Defined.

(** ** Progress figures *)

Lemma filter_length_le {A : Type} (p : A -> bool) (l : list A) :
  (List.length (filter p l) <= List.length l)%nat.
Proof.
  induction l as [|a l IH]; cbn [filter List.length]; [lia|].
  destruct (p a); cbn [List.length]; lia.
Qed.

Lemma filter_exclusive_length {A : Type} (p q : A -> bool) (l : list A) :
  (forall a, p a = true -> q a = false) ->
  (List.length (filter p l) + List.length (filter q l) <= List.length l)%nat.
Proof.
  intros Hpq. induction l as [|a l IH]; cbn [filter List.length]; [lia|].
  destruct (p a) eqn:Hp.
  - rewrite (Hpq a Hp). cbn [List.length]. lia.
  - destruct (q a); cbn [List.length]; lia.
Qed.

Lemma numberOf_le (a b : nat) : (a <= b)%nat <-> numberOf a <= numberOf b.
Proof.
  unfold numberOf. rewrite <- Zle_Qle. lia.
Qed.

Lemma floor_is (x : Q) (z : Z) :
  Qfloor x = z <-> inject_Z z <= x /\ x < inject_Z z + 1.
Proof.
  split.
  - intros <-. split; [apply Qfloor_le|].
    pose proof (Qlt_floor x) as H. rewrite inject_Z_plus in H. exact H.
  - intros [H1 H2].
    assert (L : (z <= Qfloor x)%Z).
    { pose proof (Qfloor_resp_le _ _ H1) as H. now rewrite Qfloor_Z in H. }
    assert (U : (Qfloor x < z + 1)%Z).
    { rewrite Zlt_Qlt, inject_Z_plus. change (inject_Z 1) with 1.
      apply Qle_lt_trans with x; [apply Qfloor_le | exact H2]. }
    lia.
Qed.

Lemma round_is (q : Q) (z : Z) :
  Math_round q == inject_Z z <-> inject_Z z - 0.5 <= q /\ q < inject_Z z + 0.5.
Proof.
  unfold Math_round.
  assert (E : inject_Z (Qfloor (q + 1 / 2)) == inject_Z z
              <-> Qfloor (q + 1 / 2) = z).
  { unfold Qeq, inject_Z. cbn [Qnum Qden]. lia. }
  rewrite E, floor_is.
  setoid_replace (1 / 2) with 0.5 by reflexivity.
  split; intros [H1 H2]; split; lra.
Qed.

Lemma round_between (q : Q) (lo hi : Z) :
  inject_Z lo <= q -> q <= inject_Z hi ->
  inject_Z lo <= Math_round q /\ Math_round q <= inject_Z hi.
Proof.
  intros Hlo Hhi. unfold Math_round.
  setoid_replace (1 / 2) with 0.5 by reflexivity.
  rewrite <- !Zle_Qle. split.
  - rewrite <- (Qfloor_Z lo). apply Qfloor_resp_le. lra.
  - assert (H : (Qfloor (q + 0.5) < hi + 1)%Z); [|lia].
    rewrite Zlt_Qlt, inject_Z_plus. change (inject_Z 1) with 1.
    apply Qle_lt_trans with (q + 0.5); [apply Qfloor_le | lra].
Qed.

Lemma stats_ratio (tables : list Types.Table) :
  tables <> [] ->
  0 < total (getStats tables) /\
  0 <= completed (getStats tables) /\
  completed (getStats tables) <= total (getStats tables).
Proof.
  intros Hne. cbn [getStats total completed]. repeat split.
  - change 0 with (numberOf 0). unfold numberOf. rewrite <- Zlt_Qlt.
    destruct tables; [contradiction | cbn [List.length]; lia].
  - change 0 with (numberOf 0). apply numberOf_le. lia.
  - apply numberOf_le, filter_length_le.
Qed.

Lemma stats_percent_nonempty (tables : list Types.Table) :
  tables <> [] ->
  percent (getStats tables)
  = Math_round (completed (getStats tables) / total (getStats tables) * 100).
Proof.
  intros Hne. destruct (stats_ratio tables Hne) as (Ht & _ & _).
  cbn [getStats percent completed total] in *.
  destruct (Qeq_bool (numberOf (List.length tables)) 0) eqn:E; [|reflexivity].
  apply Qeq_bool_eq in E. lra.
Qed.

(** X24.  The progress figures.  [getStats] counts at most as many
    completed tables and tables with an issue, together, as there are
    tables; its percentage is a whole number between 0 and 100, is 0 for no
    tables, and is 100 exactly when there are tables and at least 199 in 200
    of them are completed: the page's filter for completed projects, which
    tests the percentage against 100, passes a project with 199 of 200
    tables completed. *)
Theorem progress_figures :
  forall tables : list Types.Table,
    let s := getStats tables in
    completed s + issues s <= total s /\
    0 <= percent s <= 100 /\
    (exists z : Z, percent s == inject_Z z) /\
    (tables = [] -> percent s = 0) /\
    (percent s == 100 <->
     tables <> [] /\ 199 * total s <= 200 * completed s).
Proof.
  intros tables s. subst s. split; [|split; [|split; [|split]]].
  - cbn [getStats completed issues total]. unfold numberOf.
    rewrite <- inject_Z_plus, <- Zle_Qle, <- Nat2Z.inj_add.
    apply Nat2Z.inj_le. apply filter_exclusive_length.
    intros a Ha. destruct (Types.status a); (discriminate || reflexivity).
  - destruct tables as [|t tables]; [split; discriminate|].
    rewrite stats_percent_nonempty by discriminate.
    destruct (stats_ratio (t :: tables)) as (Ht & Hc0 & Hc); [discriminate|].
    set (c := completed (getStats (t :: tables))) in *.
    set (n := total (getStats (t :: tables))) in *.
    assert (Hq : 0 <= c / n * 100 /\ c / n * 100 <= 100).
    { assert (0 <= c / n) by (apply Qle_shift_div_l; lra).
      assert (c / n <= 1) by (apply Qle_shift_div_r; lra).
      split; lra. }
    apply (round_between (c / n * 100) 0 100); apply Hq.
  - destruct tables as [|t tables]; [exists 0%Z; reflexivity|].
    rewrite stats_percent_nonempty by discriminate.
    eexists. unfold Math_round. reflexivity.
  - intros ->. reflexivity.
  - destruct tables as [|t tables].
    + split; [intros H; discriminate H | intros [H _]; contradiction].
    + rewrite stats_percent_nonempty by discriminate.
      destruct (stats_ratio (t :: tables)) as (Ht & Hc0 & Hc); [discriminate|].
      set (c := completed (getStats (t :: tables))) in *.
      set (n := total (getStats (t :: tables))) in *.
      pose proof (round_is (c / n * 100) 100) as R.
      change (inject_Z 100) with 100 in R. rewrite R. clear R.
      assert (Hn : ~ n == 0) by lra.
      assert (Hle : c / n <= 1) by (apply Qle_shift_div_r; lra).
      assert (Hiff : 99.5 <= c / n * 100 <-> 199 * n <= 200 * c).
      { assert (E : 200 * c == (c / n * 200) * n) by (field; exact Hn).
        rewrite E. split; intros H.
        - assert (199 * n <= c / n * 200 * n); [|lra].
          apply Qmult_le_compat_r; lra.
        - assert (199 <= c / n * 200); [|lra].
          apply (proj1 (Qmult_le_r _ _ n Ht)). lra. }
      split.
      * intros [H1 _]. split; [discriminate|]. apply Hiff. lra.
      * intros [_ H]. apply Hiff in H. split; lra.
Qed.

Lemma progress_figures_witness :
  let tables := repeat (sampleTable "done" 0 0 Types.Completed) 199
                ++ [sampleTable "open" 1 0 Types.Pending] in
  percent (getStats tables) == 100.
Proof.
  cbv zeta.
  apply (proj2 (proj2 (proj2 (proj2 (progress_figures _))))).
  split; [discriminate | vm_compute; discriminate].
Defined.

(** ** The team of a project *)

Lemma setHas_iff (s : list string) (a : string) : setHas s a = true <-> In a s.
Proof.
  unfold setHas. rewrite existsb_exists. split.
  - intros (b & Hb & E). apply String.eqb_eq in E. now subst b.
  - intros H. exists a. split; [exact H | apply String.eqb_refl].
Qed.

Lemma setAdd_spec (s : list string) (a : string) :
  NoDup s ->
  NoDup (setAdd s a) /\ forall b, In b (setAdd s a) <-> In b s \/ b = a.
Proof.
  intros Hnd. unfold setAdd. destruct (setHas s a) eqn:E.
  - apply setHas_iff in E. split; [exact Hnd|].
    intros b. split; [now left | intros [H | ->]; assumption].
  - assert (Hn : ~ In a s) by (rewrite <- setHas_iff, E; discriminate).
    split.
    + apply NoDup_app; [exact Hnd | repeat constructor; intros [] |].
      intros b Hb [<- | []]. contradiction.
    + intros b. rewrite in_app_iff. cbn [In]. intuition.
Qed.

Lemma newSet_from (l acc : list string) :
  NoDup acc ->
  NoDup (fold_left setAdd l acc) /\
  forall b, In b (fold_left setAdd l acc) <-> In b acc \/ In b l.
Proof.
  revert acc. induction l as [|a l IH]; intros acc Hnd; cbn [fold_left].
  - split; [exact Hnd|]. intros b. cbn [In]. tauto.
  - destruct (setAdd_spec acc a Hnd) as [Hnd' Hin'].
    destruct (IH (setAdd acc a) Hnd') as [Hnd'' Hin''].
    split; [exact Hnd''|]. intros b. rewrite Hin'', Hin'. cbn [In].
    intuition.
Qed.

Lemma setDelete_spec (s : list string) (a : string) :
  NoDup s ->
  NoDup (setDelete s a) /\ forall b, In b (setDelete s a) <-> In b s /\ b <> a.
Proof.
  intros Hnd. unfold setDelete. split; [now apply NoDup_filter|].
  intros b. rewrite filter_In, negb_true_iff, String.eqb_neq. reflexivity.
Qed.

(** X25.  Ticking a team member.  [toggleTeamMember] gives a selection
    without repetitions in which the ticked member is present exactly when
    it was absent before, and every other member is present exactly when it
    was present before. *)
Theorem toggle_team_member :
  forall (selectedTeamIds : list string) (memberId : string),
    let after := toggleTeamMember selectedTeamIds memberId in
    NoDup after /\
    (In memberId after <-> ~ In memberId selectedTeamIds) /\
    forall other, other <> memberId ->
                  (In other after <-> In other selectedTeamIds).
Proof.
  intros selected memberId after. subst after. unfold toggleTeamMember.
  destruct (newSet_from selected [] (NoDup_nil _)) as [Hnd Hin].
  fold (newSet selected) in Hnd, Hin.
  assert (Hmem : forall b, In b (newSet selected) <-> In b selected)
    by (intros b; rewrite Hin; cbn [In]; tauto).
  destruct (setHas (newSet selected) memberId) eqn:E.
  - apply setHas_iff in E.
    destruct (setDelete_spec (newSet selected) memberId Hnd) as [Hnd' Hin'].
    split; [exact Hnd'|]. split.
    + rewrite Hin'. split; [intros [_ H]; now contradiction H|].
      intros H. exfalso. apply H. now apply Hmem.
    + intros other Hother. rewrite Hin', Hmem. tauto.
  - assert (Hn : ~ In memberId (newSet selected))
      by (rewrite <- setHas_iff, E; discriminate).
    destruct (setAdd_spec (newSet selected) memberId Hnd) as [Hnd' Hin'].
    split; [exact Hnd'|]. split.
    + rewrite Hin'. rewrite <- Hmem. tauto.
    + intros other Hother. rewrite Hin', Hmem. tauto.
Qed.

Lemma toggle_team_member_witness :
  In "b"%string (toggleTeamMember ["a"; "b"]%string "a").
Proof.
  apply (proj2 (proj2 (proj2 (toggle_team_member ["a"; "b"]%string "a"))
                      "b"%string ltac:(discriminate))).
  right. left. reflexivity.
Defined.

(** ** Deleting a project *)

Lemma clear_members (members store : list TeamMember.t) :
  fold_left (fun s m => updateMember (TeamMember.id m)
                                     (TeamMember.setCurrentProjectId "") s)
            members store
  = map (fun x =>
           if existsb (fun m => String.eqb (TeamMember.id x) (TeamMember.id m))
                      members
           then TeamMember.setCurrentProjectId "" x else x) store.
Proof.
  revert store. induction members as [|m members IH]; intros store;
    cbn [fold_left existsb].
  - symmetry. apply map_id.
  - rewrite IH. unfold updateMember. rewrite map_map. apply map_ext.
    intros x. destruct (String.eqb (TeamMember.id x) (TeamMember.id m)) eqn:E.
    + cbn [orb].
      change (fun m0 => String.eqb
                          (TeamMember.id (TeamMember.setCurrentProjectId "" x))
                          (TeamMember.id m0))
        with (fun m0 => String.eqb (TeamMember.id x) (TeamMember.id m0)).
      destruct (existsb _ members); reflexivity.
    + reflexivity.
Qed.

(** X26.  Deleting a project leaves nothing that points to it.  Without the
    confirmation the database is untouched.  With it, and for a non-empty
    project id: no project with that id and no table of that project are
    left, while every other project and every table of another project are
    kept; no team member is left assigned to the project; the team has the
    same members in the same order; and, the ids of the team being distinct,
    a member that was not assigned to the project is unchanged. *)
Theorem delete_project :
  forall (db : Database) (projectId : string),
    handleDeleteProject false db projectId = db /\
    (projectId <> ""%string ->
     let db' := handleDeleteProject true db projectId in
     (forall p, In p (projects db') <->
                In p (projects db) /\ Project.id p <> projectId) /\
     (forall t, In t (projectTables db') <->
                In t (projectTables db) /\ Types.projectId t <> projectId) /\
     (forall m, In m (team db') -> pointsTo projectId m = false) /\
     map TeamMember.id (team db') = map TeamMember.id (team db) /\
     (NoDup (map TeamMember.id (team db)) ->
      forall m, In m (team db) -> pointsTo projectId m = false ->
                In m (team db'))).
Proof.
  intros db projectId. split; [reflexivity|]. intros Hne db'. subst db'.
  cbn [handleDeleteProject projects projectTables team].
  rewrite clear_members. repeat split.
  - now apply filter_In in H.
  - apply filter_In in H. destruct H as [_ H].
    now apply negb_true_iff, String.eqb_neq in H.
  - intros [H1 H2]. apply filter_In. split; [exact H1|].
    now apply negb_true_iff, String.eqb_neq.
  - now apply filter_In in H.
  - apply filter_In in H. destruct H as [_ H].
    now apply negb_true_iff, String.eqb_neq in H.
  - intros [H1 H2]. apply filter_In. split; [exact H1|].
    now apply negb_true_iff, String.eqb_neq.
  - intros m Hm. apply in_map_iff in Hm. destruct Hm as (x & <- & Hx).
    destruct (existsb _ _) eqn:E.
    + unfold pointsTo. cbn [TeamMember.setCurrentProjectId
                             TeamMember.currentProjectId].
      apply String.eqb_neq. congruence.
    + destruct (pointsTo projectId x) eqn:P; [|reflexivity].
      exfalso. rewrite <- not_true_iff_false in E. apply E.
      apply existsb_exists. exists x. split; [|apply String.eqb_refl].
      apply filter_In. now split.
  - rewrite map_map. apply map_ext. intros x.
    destruct (existsb _ _); reflexivity.
  - intros Hnd m Hm Hp. apply in_map_iff. exists m. split; [|exact Hm].
    destruct (existsb _ _) eqn:E; [|reflexivity].
    exfalso. apply existsb_exists in E. destruct E as (x & Hx & E).
    apply String.eqb_eq in E. apply filter_In in Hx. destruct Hx as [Hx Px].
    assert (m = x).
    { clear - Hnd Hm Hx E. induction (team db) as [|a l IH]; [contradiction|].
      cbn [map] in Hnd. apply NoDup_cons_iff in Hnd. destruct Hnd as [Hn Hnd].
      destruct Hm as [<- | Hm], Hx as [<- | Hx].
      - reflexivity.
      - exfalso. apply Hn. rewrite E. now apply in_map.
      - exfalso. apply Hn. rewrite <- E. now apply in_map.
      - now apply IH. }
    subst x. congruence.
Qed.

Lemma delete_project_witness :
  let member := {| TeamMember.id := "m1"; TeamMember.name := "Ada";
                   TeamMember.email := None; TeamMember.role := "Installer";
                   TeamMember.hourlyRate := 10; TeamMember.isActive := true;
                   TeamMember.currentProjectId := Some "p"%string;
                   TeamMember.phone := None; TeamMember.notes := None |} in
  pointsTo "p" (TeamMember.setCurrentProjectId "" member) = false.
Proof.
  intro member.
  refine (proj1 (proj2 (proj2 (proj2
            (delete_project {| projects := [];
                               projectTables := generateTables "p" 2 0 0;
                               team := [member] |} "p") _))) _ _).
  - discriminate.
  - left. reflexivity.
Defined.

(** ** The other layout *)

Lemma next_in_row (n : nat) :
  (if (20 <=? S (n mod 20))%nat then 0%nat else S (n mod 20)) = (S n mod 20)%nat /\
  (if (20 <=? S (n mod 20))%nat then S (n / 20) else (n / 20)%nat) = (S n / 20)%nat.
Proof.
  pose proof (Nat.div_mod_eq n 20) as Hn.
  pose proof (Nat.mod_upper_bound n 20 ltac:(discriminate)) as Hr.
  destruct (20 <=? S (n mod 20))%nat eqn:E.
  - apply Nat.leb_le in E.
    assert (H : S n = (20 * S (n / 20) + 0)%nat) by lia.
    split.
    + apply (Nat.mod_unique _ 20 (S (n / 20)) 0); [lia | exact H].
    + apply (Nat.div_unique _ 20 (S (n / 20)) 0); [lia | exact H].
  - apply Nat.leb_gt in E.
    assert (H : S n = (20 * (n / 20) + S (n mod 20))%nat) by lia.
    split.
    + apply (Nat.mod_unique _ 20 (n / 20) (S (n mod 20))); [lia | exact H].
    + apply (Nat.div_unique _ 20 (n / 20) (S (n mod 20))); [lia | exact H].
Qed.

Lemma placeTable_cursor projectId type (n i : nat) (cur : Cursor) :
  cursorAfter n cur -> cursorAfter (S n) (placeTable projectId type cur i).
Proof.
  intros (Hx & Hy & Hlen & Hall).
  destruct (next_in_row n) as [Nx Ny].
  unfold placeTable, MAX_WIDTH_ITEMS. rewrite Hx, Hy.
  assert (Hnew : forall placedNow k t,
             placedNow = placed cur ++
               [{| Types.id := (projectId ++ "_" ++ Types.type_label type ++ "_"
                                          ++ counterString i)%string;
                   Types.projectId := projectId; Types.index := numberOf i;
                   Types.type := type; Types.status := Types.Pending;
                   Types.x := numberOf (n mod 20); Types.y := numberOf (n / 20);
                   Types.completedBy := None; Types.completedAt := None |}] ->
             nth_error placedNow k = Some t ->
             Types.x t = numberOf (k mod 20) /\
             Types.y t = numberOf (k / 20) /\
             Types.status t = Types.Pending /\
             Types.completedBy t = None /\ Types.completedAt t = None).
  { intros placedNow k t -> Hk.
    destruct (Nat.lt_ge_cases k n) as [Hlt | Hge].
    - rewrite nth_error_app1 in Hk by lia. now apply Hall.
    - rewrite nth_error_app2 in Hk by lia. rewrite Hlen in Hk.
      destruct (k - n)%nat as [|d] eqn:Hd.
      + assert (k = n) by lia. subst k. cbn [nth_error] in Hk.
        injection Hk as <-. repeat split.
      + cbn [nth_error] in Hk. destruct d; discriminate Hk. }
  destruct (20 <=? S (n mod 20))%nat; unfold cursorAfter;
    cbn [currentX currentY placed]; rewrite <- Nx, <- Ny;
    (split; [reflexivity|]); (split; [reflexivity|]);
    (split; [rewrite length_app, Hlen; cbn [List.length]; lia|]);
    intros k t Hk; now apply (Hnew _ k t eq_refl).
Qed.

Lemma addTables_cursor projectId count type (n : nat) (cur : Cursor) :
  cursorAfter n cur ->
  cursorAfter (n + iterations count) (addTables projectId count type cur).
Proof.
  unfold addTables. generalize (iterations count) as m. intros m.
  generalize 0%nat as s. revert n cur.
  induction m as [|m IH]; intros n cur s H; cbn [seq fold_left].
  - now rewrite Nat.add_0_r.
  - replace (n + S m)%nat with (S n + m)%nat by lia.
    apply IH. now apply placeTable_cursor.
Qed.

Lemma layoutTables_cursor projectId small medium large :
  cursorAfter (iterations small + iterations medium + iterations large)
              (addTables projectId large Types.Large
                 (addTables projectId medium Types.Medium
                    (addTables projectId small Types.Small
                       {| placed := []; currentX := 0; currentY := 0 |}))).
Proof.
  do 2 apply addTables_cursor.
  apply (addTables_cursor projectId small Types.Small 0).
  unfold cursorAfter. cbn [currentX currentY placed List.length].
  repeat (split; [reflexivity|]).
  intros k t Hk. destruct k; discriminate Hk.
Qed.

(** X27.  The other layout.  The version of [handleCreateProject] that
    steps a cursor lays out as many tables, twenty to a row: the [k]-th
    table, counting from 0 across the three sizes, stands in column
    [k mod 20] and row [k / 20], pending and completed by nobody; so these
    tables too sit on distinct cells of the integer grid. *)
Theorem cursor_layout :
  forall projectId small medium large,
    let tables := layoutTables projectId small medium large in
    List.length tables
    = (iterations small + iterations medium + iterations large)%nat /\
    (forall (k : nat) (t : Types.Table),
        nth_error tables k = Some t ->
        Types.x t = numberOf (k mod 20) /\
        Types.y t = numberOf (k / 20) /\
        Types.status t = Types.Pending /\
        Types.completedBy t = None /\ Types.completedAt t = None) /\
    gridLayout tables.
Proof.
  intros projectId small medium large tables.
  destruct (layoutTables_cursor projectId small medium large)
    as (_ & _ & Hlen & Hall).
  fold (layoutTables projectId small medium large) in Hlen, Hall.
  fold tables in Hlen, Hall.
  split; [exact Hlen|]. split; [exact Hall|]. split.
  - intros t Ht. apply In_nth_error in Ht. destruct Ht as [k Hk].
    destruct (Hall k t Hk) as (Hx & Hy & _).
    exists (Z.of_nat (k mod 20)), (Z.of_nat (k / 20)).
    rewrite Hx, Hy. split; reflexivity.
  - intros i j t u Hi Hj Ex Ey.
    destruct (Hall i t Hi) as (Hxi & Hyi & _).
    destruct (Hall j u Hj) as (Hxj & Hyj & _).
    rewrite Hxi, Hxj in Ex. rewrite Hyi, Hyj in Ey.
    apply numberOf_inj in Ex, Ey.
    rewrite (Nat.div_mod_eq i 20), (Nat.div_mod_eq j 20). congruence.
Qed.

Lemma cursor_layout_witness :
  exists t,
    nth_error (layoutTables "p" 25 0 1) 25 = Some t /\
    Types.x t = numberOf 5 /\ Types.y t = numberOf 1.
Proof.
  destruct (nth_error (layoutTables "p" 25 0 1) 25) as [t|] eqn:E.
  - exists t. split; [reflexivity|].
    destruct (proj1 (proj2 (cursor_layout "p" 25 0 1)) 25%nat t E)
      as (Hx & Hy & _).
    split; [exact Hx | exact Hy].
  - exfalso. vm_compute in E. discriminate E.
Defined.

(** ** The figures of a team member *)

Lemma round_of_whole (q : Q) (z : Z) : q == inject_Z z -> Math_round q == inject_Z z.
Proof.
  intros E. apply round_is. rewrite E. split; lra.
Qed.

Lemma round_near (q : Q) : q - 0.5 <= Math_round q /\ Math_round q <= q + 0.5.
Proof.
  unfold Math_round. setoid_replace (1 / 2) with 0.5 by reflexivity.
  pose proof (Qfloor_le (q + 0.5)) as H1.
  pose proof (Qlt_floor (q + 0.5)) as H2.
  rewrite inject_Z_plus in H2. change (inject_Z 1) with 1 in H2.
  split; lra.
Qed.

(** X28.  The figures of a team member.  Without the attendance records or
    without the tables, all three figures are 0.  Otherwise the count is the
    number of tables completed by the member, the power figure is exactly
    half that count, and the hours are the member's working time (finished
    work records only) to the nearest tenth of an hour: a whole number of
    tenths, within a twentieth of an hour of the exact time. *)
Theorem member_figures :
  forall (attendance : list Attendance.t) (tables : list Types.Table)
         (memberId : string),
    getMemberStats None (Some tables) memberId
    = {| hours := 0; kw := 0; tablesDone := 0 |} /\
    getMemberStats (Some attendance) None memberId
    = {| hours := 0; kw := 0; tablesDone := 0 |} /\
    let s := getMemberStats (Some attendance) (Some tables) memberId in
    tablesDone s
    = numberOf (List.length (filter (completedByMember memberId) tables)) /\
    kw s == tablesDone s * 0.5 /\
    (exists z : Z, hours s * 10 == inject_Z z) /\
    workedMs attendance memberId / 3600000 - 0.05 <= hours s /\
    hours s <= workedMs attendance memberId / 3600000 + 0.05.
Proof.
  intros attendance tables memberId.
  split; [reflexivity|]. split; [reflexivity|]. cbv zeta.
  cbn [getMemberStats tablesDone kw hours]. fold (workedMs attendance memberId).
  set (n := List.length (filter (completedByMember memberId) tables)).
  set (ms := workedMs attendance memberId).
  split; [reflexivity|]. split; [|split].
  - assert (E : numberOf n * 0.5 * 10 == inject_Z (Z.of_nat n * 5)).
    { unfold numberOf. rewrite inject_Z_mult. change (inject_Z 5) with 5. ring. }
    rewrite (round_of_whole _ _ E), inject_Z_mult.
    change (inject_Z 5) with 5. unfold numberOf. field.
  - eexists. unfold Math_round.
    match goal with
    | |- inject_Z ?z / 10 * 10 == _ =>
        setoid_replace (inject_Z z / 10 * 10) with (inject_Z z) by field
    end.
    reflexivity.
  - destruct (round_near (ms / 3600000 * 10)) as [H1 H2].
    set (r := Math_round (ms / 3600000 * 10)) in *.
    assert (E : r / 10 == r * 0.1) by field.
    rewrite E. split; lra.
Qed.
